(** * run_openfold_batch.py: job runner, round scheduler and retry driver

    A shallow embedding of [run_one], [run_tasks] and the retry loop of
    [main], with the properties of the scheduling and failure-classification
    core stated and proved over it.

    Modelling choices:
    - text (captured output, log content, environment values) is a
      [string];
    - [os.environ] and the child's environment are [gmap string string];
    - an exit code and a GPU id are [Z];
    - a Python exception is a value [Raise e] of the result type [res];
    - what the operating system does (spawning the child, opening and
      reading back the log file) is an oracle, the record [os_world];
      every theorem quantifies over all oracles;
    - the order in which [as_completed] yields futures is chosen by a
      list of numbers, the schedule; every theorem quantifies over all
      schedules;
    - the console is a list of structured lines. *)

From Stdlib Require Import ZArith Ascii String List Lia Permutation.
From stdpp Require Import base decidable option list gmap strings pretty.

Local Open Scope string_scope.
Local Open Scope list_scope.
Local Open Scope Z_scope.

(** ** Python values *)

(** The exceptions that reach the scheduler. *)
Inductive exn : Type :=
  | OSError (what : string)   (* FileNotFoundError, PermissionError, ... *)
  | IndexError
  | ValueError.

Inductive res (A : Type) : Type :=
  | Ret (a : A)
  | Raise (e : exn).
Arguments Ret {A} a.
Arguments Raise {A} e.

Definition res_bind {A B : Type} (m : res A) (f : A -> res B) : res B :=
  match m with
  | Ret a => f a
  | Raise e => Raise e
  end.

(** [str(gpu_id)] for an [int]. *)
Definition str (z : Z) : string := pretty z.

(** [m in text]: literal substring search. *)
Fixpoint startswith (m text : string) : bool :=
  match m with
  | EmptyString => true
  | String a m' =>
      match text with
      | EmptyString => false
      | String b text' => if Ascii.eqb a b then startswith m' text' else false
      end
  end.

Fixpoint str_in (m text : string) : bool :=
  startswith m text ||
  match text with
  | EmptyString => false
  | String _ text' => str_in m text'
  end.

(** [any(m in text for m in markers)]. *)
Definition any_in (markers : list string) (text : string) : bool :=
  existsb (fun m => str_in m text) markers.

(** [s[k:]]. *)
Fixpoint string_drop (k : nat) (s : string) : string :=
  match k with
  | O => s
  | S k' =>
      match s with
      | EmptyString => EmptyString
      | String _ s' => string_drop k' s'
      end
  end.

(** ** The operating system, as [run_one] sees it *)

Inductive popen_result : Type :=
  | PopenRaises (e : exn)
  | PopenExits (returncode : Z) (out : string).

Record os_world : Type := {
  (** [os.environ] *)
  environ : gmap string string;
  (** [subprocess.Popen(cmd, env=env, cwd=cwd, ...)] followed by
      [communicate()] or [wait()]: the child cannot be started, or it
      runs and ends with an exit code and its combined output. *)
  popen : list string -> gmap string string -> string -> popen_result;
  (** [open(log_file, "w", buffering=1)]: [Some e] when it raises. *)
  open_w : string -> option exn;
  (** the second [open(log_file, "r", errors="ignore")] with its [seek],
      [tell] and [read]: the content of the log at that moment, [None]
      when any of them raises an [Exception]. *)
  reopen_r : string -> option string
}.

(** ** run_one *)

(** [env.setdefault(k, v)] *)
Definition setdefault (k v : string) (env : gmap string string)
  : gmap string string :=
  match env !! k with
  | Some _ => env
  | None => <[k := v]> env
  end.

(** Lines 27-29. *)
Definition child_env (environ : gmap string string) (gpu_id : Z)
  : gmap string string :=
  let env := environ in
  let env := <["CUDA_VISIBLE_DEVICES" := str gpu_id]> env in
  setdefault "CUDA_DEVICE_ORDER" "PCI_BUS_ID" env.

(** Lines 49-53: the last [tail] characters of the log. *)
Definition tail : Z := 200000.

Definition read_tail (content : string) : string :=
  let size := Z.of_nat (String.length content) in
  string_drop (Z.to_nat (Z.max 0 (size - tail))) content.

(** Lines 58-66. *)
Definition err_markers : list string :=
  [ "Traceback (most recent call last)";
    "ValueError:";
    "RuntimeError:";
    "AssertionError:";
    "Error:";
    "Exception:";
    "More than one input sequence found" ].

(** Lines 67-72. *)
Definition classify (ret : Z) (text : string) : Z :=
  if ret =? 0 then
    let lower := text in
    if any_in err_markers lower then 1 else ret
  else ret.

(** Lines 32-55: the exit code and the text that is scanned. *)
Definition run_child (w : os_world) (cmd : list string)
    (env : gmap string string) (log_file : option string) (cwd : string)
  : res (Z * string) :=
  match log_file with
  | None =>
      match popen w cmd env cwd with
      | PopenRaises e => Raise e
      | PopenExits ret out => Ret (ret, out)
      end
  | Some path =>
      match open_w w path with
      | Some e => Raise e
      | None =>
          match popen w cmd env cwd with
          | PopenRaises e => Raise e
          | PopenExits ret _ =>
              let text :=
                match reopen_r w path with
                | Some content => read_tail content
                | None => ""
                end in
              Ret (ret, text)
          end
      end
  end.

Definition run_one (w : os_world) (cmd : list string) (gpu_id : Z)
    (log_file : option string) (cwd : string) : res Z :=
  let env := child_env (environ w) gpu_id in
  res_bind (run_child w cmd env log_file cwd)
    (fun '(ret, text) => Ret (classify ret text)).

(** [build_cmd]; every path has already been turned into a string. *)
Definition build_cmd (py script fasta_dir mmcif_dir out_dir aln_dir
    config_preset : string) (skip_relax : bool) : list string :=
  let cmd :=
    [ py; script;
      fasta_dir;
      mmcif_dir;
      "--output_dir"; out_dir;
      "--use_precomputed_alignments"; aln_dir;
      "--config_preset"; config_preset;
      "--model_device"; "cuda:0" ] in
  if skip_relax then cmd ++ ["--skip_relaxation"] else cmd.

(** ** The console *)

Inductive line : Type :=
  | OkLine (gpu_id : Z) (seed_name : string)
      (* [OK][GPU{gpu_id}][{seed_name}] *)
  | FailLine (gpu_id : Z) (seed_name : string) (ret : Z)
      (* [FAIL][GPU{gpu_id}][{seed_name}] ret={ret} *)
  | FirstRoundLine (n_ok n_fail : nat)
      (* [Round 1] ... {len(ok)} ... {len(fail)} *)
  | RetryLine (attempts : Z) (n_fail : nat)
      (* [Retry #{attempts}] ... {len(fail)} ... *)
  | RoundLine (round : Z) (n_ok2 n_fail2 : nat)
      (* [Round {attempts+1}] ... {len(ok2)} ... {len(fail2)} *)
  | DoneLine (n_ok n_fail : nat)
      (* the closing summary: {len(ok)}, {len(fail)} *)
  | StillFailingLine (names : list string).
      (* [x[2] for x in fail] *)

(** A computation that prints and then returns or raises. *)
Definition io (A : Type) : Type := list line * res A.

Definition printed {A : Type} (out : list line) (m : io A) : io A :=
  (out ++ fst m, snd m).

(** The names of the jobs reported [OK], reported [FAIL], and reported at
    all, in the order of the lines. *)
Definition ok_name (l : line) : list string :=
  match l with
  | OkLine _ n => [n]
  | _ => []
  end.

Definition fail_name (l : line) : list string :=
  match l with
  | FailLine _ n _ => [n]
  | _ => []
  end.

Definition status_name (l : line) : list string :=
  ok_name l ++ fail_name l.

Definition ok_names (out : list line) : list string := flat_map ok_name out.
Definition fail_names (out : list line) : list string := flat_map fail_name out.
Definition status_names (out : list line) : list string :=
  flat_map status_name out.

(** ** run_tasks *)

(** A task tuple [(cmd, gpu_id, seed_name, log_file)]. *)
Record task : Type := Task {
  task_cmd : list string;
  task_gpu : Z;
  task_name : string;
  task_log : option string
}.

(** An entry of [future_to_task]: what the future holds once it is done,
    and the tuple stored for it. *)
Record future : Type := Future {
  fut_result : res Z;
  fut_task : task
}.

(** Removing the [k]-th element of a list. *)
Fixpoint take_out {A : Type} (k : nat) (l : list A) {struct l}
  : option (A * list A) :=
  match l with
  | [] => None
  | x :: l' =>
      match k with
      | O => Some (x, l')
      | S k' =>
          match take_out k' l' with
          | Some (y, r) => Some (y, x :: r)
          | None => None
          end
      end
  end.

(** [as_completed(future_to_task)]: the futures in the order in which they
    finish. The schedule names, at each step, which of the futures still
    pending finishes next. *)
Fixpoint as_completed_from {A : Type} (n : nat) (schedule : list nat)
    (pending : list A) : list A :=
  match n with
  | O => []
  | S n' =>
      match take_out (Nat.modulo (hd O schedule) (length pending)) pending with
      | Some (x, rest) => x :: as_completed_from n' (tl schedule) rest
      | None => []
      end
  end.

Definition as_completed {A : Type} (schedule : list nat) (futs : list A)
  : list A :=
  as_completed_from (length futs) schedule futs.

Section Scheduler.

(** [str(Path(p).parent)] *)
Variable path_parent : string -> string.

(** Lines 85-88, from position [i] on. [w i] is the world that the call
    of [run_one] for position [i] sees. *)
Fixpoint submit_from (w : nat -> os_world) (gpu_ids : list Z) (i : nat)
    (tasks : list task) : res (list future) :=
  match tasks with
  | [] => Ret []
  | Task cmd _ seed_name log_file :: tasks' =>
      match gpu_ids !! Nat.modulo i (length gpu_ids) with
      | None => Raise IndexError
      | Some gpu_id =>
          match cmd !! 1%nat with
          | None => Raise IndexError
          | Some script_path =>
              let fut := run_one (w i) cmd gpu_id log_file
                           (path_parent script_path) in
              let entry := Future fut (Task cmd gpu_id seed_name log_file) in
              res_bind (submit_from w gpu_ids (S i) tasks')
                (fun futs => Ret (entry :: futs))
          end
      end
  end.

(** Lines 90-98. *)
Fixpoint collect (done : list future) (ok : list string) (fail : list task)
  : io (list string * list task) :=
  match done with
  | [] => ([], Ret (ok, fail))
  | fut :: done' =>
      match fut_result fut with
      | Raise e => ([], Raise e)
      | Ret ret =>
          let '(Task cmd gpu_id seed_name log_file) := fut_task fut in
          if ret =? 0 then
            printed [OkLine gpu_id seed_name]
              (collect done' (ok ++ [seed_name]) fail)
          else
            printed [FailLine gpu_id seed_name ret]
              (collect done' ok (fail ++ [Task cmd gpu_id seed_name log_file]))
      end
  end.

(** Lines 82-100. [ThreadPoolExecutor(max_workers=0)] raises [ValueError];
    an exception of the submission loop or of [fut.result()] leaves the
    function, after the lines printed so far. *)
Definition run_tasks (w : nat -> os_world) (schedule : list nat)
    (tasks : list task) (gpu_ids : list Z) (script : string)
  : io (list string * list task) :=
  let ok := [] in
  let fail := [] in
  if (length gpu_ids =? 0)%nat then ([], Raise ValueError)
  else
    match submit_from w gpu_ids 0 tasks with
    | Raise e => ([], Raise e)
    | Ret future_to_task =>
        collect (as_completed schedule future_to_task) ok fail
    end.

(** ** The retry driver, lines 179-194 of [main] *)

(** [W k] and [schedules k] are the world and the completion order of
    round [k]: round 0 is the first run, round [k] is retry number [k]. *)
Variable W : Z -> nat -> os_world.
Variable schedules : Z -> list nat.

Definition truthy {A : Type} (l : list A) : bool :=
  match l with
  | [] => false
  | _ :: _ => true
  end.

(** The [while] loop; [None] when the fuel runs out before the loop ends.
    The value is the final [(ok, fail, attempts)]. *)
Fixpoint retry_loop (fuel : nat) (gpu_ids : list Z) (script : string)
    (max_retries attempts : Z) (ok : list string) (fail : list task)
  : option (io (list string * list task * Z)) :=
  match fuel with
  | O => None
  | S fuel' =>
      if truthy fail && (attempts <? max_retries) then
        let attempts := attempts + 1 in
        let retry := RetryLine attempts (length fail) in
        match
          run_tasks (W attempts) (schedules attempts) fail gpu_ids script
        with
        | (out, Raise e) => Some (retry :: out, Raise e)
        | (out, Ret (ok2, fail2)) =>
            let ok := ok ++ ok2 in
            let fail := fail2 in
            let round := RoundLine (attempts + 1) (length ok2) (length fail2) in
            option_map (printed (retry :: out ++ [round]))
              (retry_loop fuel' gpu_ids script max_retries attempts ok fail)
        end
      else Some ([], Ret (ok, fail, attempts))
  end.

Definition main_rounds (fuel : nat) (tasks : list task) (gpu_ids : list Z)
    (script : string) (max_retries : Z)
  : option (io (list string * list task * Z)) :=
  match run_tasks (W 0) (schedules 0) tasks gpu_ids script with
  | (out, Raise e) => Some (out, Raise e)
  | (out, Ret (ok, fail)) =>
      let first := FirstRoundLine (length ok) (length fail) in
      let attempts := 0 in
      match retry_loop fuel gpu_ids script max_retries attempts ok fail with
      | None => None
      | Some (out', Raise e) => Some (out ++ first :: out', Raise e)
      | Some (out', Ret (ok, fail, attempts)) =>
          let done := DoneLine (length ok) (length fail) in
          let still :=
            if truthy fail then [StillFailingLine (map task_name fail)]
            else [] in
          Some (out ++ first :: out' ++ done :: still, Ret (ok, fail, attempts))
      end
  end.

End Scheduler.

(** ** main, lines 119-176: arguments, checks and task construction *)

(** The parsed arguments, [args]. *)
Record args : Type := Args {
  arg_seeds_root : string;
  arg_output_root : string;
  arg_fasta_dir : string;
  arg_mmcif_dir : string;
  arg_script : string;
  arg_config_preset : string;
  arg_skip_relaxation : bool;
  arg_gpus : string;
  arg_include : option (list string);
  arg_dry_run : bool;
  arg_log_dir : option string;
  arg_max_retries : Z
}.

(** What [main] calls outside this file: [pathlib], [sys] and the string
    methods whose result is not computed here. *)
Record host : Type := {
  (** [str(Path(p).resolve())] *)
  resolve : string -> string;
  (** [Path(p).is_dir()] and [Path(p).is_file()] *)
  is_dir : string -> bool;
  is_file : string -> bool;
  (** [sorted(Path(p).iterdir())], as path strings *)
  iterdir_sorted : string -> res (list string);
  (** [Path(p).name] *)
  path_name : string -> string;
  (** [str(Path(p).parent)] *)
  parent : string -> string;
  (** [str(Path(a) / b)] *)
  path_join : string -> string -> string;
  (** [Path(p).mkdir(parents=True, exist_ok=True)]: [Some e] when it raises *)
  mkdir : string -> option exn;
  (** [sys.executable] *)
  executable : string;
  (** [int(x)]: [None] when it raises [ValueError] *)
  int_of : string -> option Z;
  (** [x.strip()] *)
  strip : string -> string
}.

(** [s.split(sep)] for a separator of one character. *)
Fixpoint split_on (sep : ascii) (s : string) : list string :=
  match s with
  | EmptyString => [EmptyString]
  | String c s' =>
      if Ascii.eqb c sep then EmptyString :: split_on sep s'
      else
        match split_on sep s' with
        | x :: xs => String c x :: xs
        | [] => [String c EmptyString]
        end
  end.

(** Line 134: [[int(x) for x in xs if x.strip() != ""]]. *)
Fixpoint parse_ints (h : host) (xs : list string) : res (list Z) :=
  match xs with
  | [] => Ret []
  | x :: xs' =>
      if String.eqb (strip h x) "" then parse_ints h xs'
      else
        match int_of h x with
        | None => Raise ValueError
        | Some z => res_bind (parse_ints h xs') (fun zs => Ret (z :: zs))
        end
  end.

Definition parse_gpus (h : host) (gpus : string) : res (list Z) :=
  parse_ints h (split_on "," gpus).

(** [d.name in include_set] *)
Definition included (h : host) (include_set : list string) (d : string)
  : bool :=
  existsb (String.eqb (path_name h d)) include_set.

(** Lines 138-141. *)
Definition select_seeds (h : host) (seeds_root : string)
    (include : option (list string)) : res (list string) :=
  res_bind (iterdir_sorted h seeds_root) (fun entries =>
    let seeds := List.filter (is_dir h) entries in
    let seeds :=
      match include with
      | Some (n :: names) => List.filter (included h (n :: names)) seeds
      | _ => seeds
      end in
    Ret seeds).

(** Lines 151-169. *)
Fixpoint make_tasks (h : host) (a : args)
    (output_root fasta_dir mmcif_dir script : string) (seeds : list string)
  : res (list task) :=
  match seeds with
  | [] => Ret []
  | seed_dir :: seeds' =>
      let seed_name := path_name h seed_dir in
      let aln_dir := seed_dir in
      let out_dir := path_join h output_root seed_name in
      match mkdir h out_dir with
      | Some e => Raise e
      | None =>
          let cmd :=
            build_cmd (executable h) script fasta_dir mmcif_dir out_dir
              aln_dir (arg_config_preset a) (arg_skip_relaxation a) in
          let log_file :=
            match arg_log_dir a with
            | None => None
            | Some log_dir =>
                Some (path_join h log_dir (seed_name +:+ ".log"))
            end in
          res_bind
            (make_tasks h a output_root fasta_dir mmcif_dir script seeds')
            (fun tasks => Ret (Task cmd (-1) seed_name log_file :: tasks))
      end
  end.

(** The messages of [sys.exit]. *)
Inductive exit_message : Type :=
  | SeedsRootMissing (seeds_root : string)
  | FastaDirMissing (fasta_dir : string)
  | MmcifDirMissing (mmcif_dir : string)
  | ScriptMissing (script : string)
  | NoGpuIds
  | NoSeeds (seeds_root : string).

(** The console of [main]. *)
Inductive main_line : Type :=
  | InfoLine (n_seeds : nat) (gpu_ids : list Z)
      (* [INFO] ... {len(seeds)} ... {gpu_ids} *)
  | CmdLine (seed_name : string) (cmd : string)
      (* [CMD] seed_name " ".join(cmd) *)
  | DryRunLine
      (* [DRY-RUN] ... *)
  | RunLine (l : line).

(** How [main] ends: [sys.exit(message)], an exception that nothing
    catches, the [return] of a dry run, or the end of the function with
    the final [ok], [fail] and [attempts]. *)
Inductive main_end : Type :=
  | SysExit (m : exit_message)
  | Crash (e : exn)
  | DryRunEnd
  | Finished (ok : list string) (fail : list task) (attempts : Z).

(** Lines 145-146. *)
Definition make_log_dir (h : host) (log_dir : option string) : option exn :=
  match log_dir with
  | None => None
  | Some d => if String.eqb d "" then None else mkdir h d
  end.

Definition cmd_line (t : task) : main_line :=
  CmdLine (task_name t) (String.concat " " (task_cmd t)).

(** [main] after [parse_args]; [None] when the fuel of the retry loop runs
    out. *)
Definition main (h : host) (W : Z -> nat -> os_world)
    (schedules : Z -> list nat) (fuel : nat) (a : args)
  : option (list main_line * main_end) :=
  let seeds_root := resolve h (arg_seeds_root a) in
  let output_root := resolve h (arg_output_root a) in
  let fasta_dir := resolve h (arg_fasta_dir a) in
  let mmcif_dir := resolve h (arg_mmcif_dir a) in
  let script := resolve h (arg_script a) in
  if negb (is_dir h seeds_root) then
    Some ([], SysExit (SeedsRootMissing seeds_root))
  else if negb (is_dir h fasta_dir) then
    Some ([], SysExit (FastaDirMissing fasta_dir))
  else if negb (is_dir h mmcif_dir) then
    Some ([], SysExit (MmcifDirMissing mmcif_dir))
  else if negb (is_file h script) then
    Some ([], SysExit (ScriptMissing script))
  else
    match parse_gpus h (arg_gpus a) with
    | Raise e => Some ([], Crash e)
    | Ret gpu_ids =>
        if negb (truthy gpu_ids) then Some ([], SysExit NoGpuIds)
        else
          match select_seeds h seeds_root (arg_include a) with
          | Raise e => Some ([], Crash e)
          | Ret seeds =>
              if negb (truthy seeds) then
                Some ([], SysExit (NoSeeds seeds_root))
              else
                match make_log_dir h (arg_log_dir a) with
                | Some e => Some ([], Crash e)
                | None =>
                    let info := InfoLine (length seeds) gpu_ids in
                    match
                      make_tasks h a output_root fasta_dir mmcif_dir script
                        seeds
                    with
                    | Raise e => Some ([info], Crash e)
                    | Ret tasks =>
                        let cmds := map cmd_line tasks in
                        if arg_dry_run a then
                          Some (info :: cmds ++ [DryRunLine], DryRunEnd)
                        else
                          match
                            main_rounds (parent h) W schedules fuel tasks
                              gpu_ids script (arg_max_retries a)
                          with
                          | None => None
                          | Some (out, Raise e) =>
                              Some (info :: cmds ++ map RunLine out, Crash e)
                          | Some (out, Ret (ok, fail, attempts)) =>
                              Some (info :: cmds ++ map RunLine out,
                                    Finished ok fail attempts)
                          end
                    end
                end
          end
    end.

(** ** Vocabulary of the statements *)

(** [m] occurs in [text] as a substring. *)
Definition substring (m text : string) : Prop :=
  exists pre post, text = pre +:+ m +:+ post.

(** The text that [run_one] scans: the piped output in memory, the tail of
    the log read back from the file, or nothing when the log cannot be read
    back. *)
Definition captured_text (w : os_world) (log_file : option string)
    (out : string) : string :=
  match log_file with
  | None => out
  | Some path =>
      match reopen_r w path with
      | Some content => read_tail content
      | None => ""
      end
  end.

(** The log, when there is one, can be opened for writing. *)
Definition log_writable (w : os_world) (log_file : option string) : Prop :=
  match log_file with
  | None => True
  | Some path => open_w w path = None
  end.

(** The retries announced on the console. *)
Definition retry_mark (l : line) : list Z :=
  match l with
  | RetryLine attempts _ => [attempts]
  | _ => []
  end.

Definition retries (out : list line) : list Z := flat_map retry_mark out.

(** How many times the console reports a run of the job [n]. *)
Definition attempts_of (n : string) (out : list line) : nat :=
  count_occ string_dec (status_names out) n.

(** Once a job is reported [OK], no later line of the console reports it
    again. *)
Fixpoint settled (out : list line) : Prop :=
  match out with
  | [] => True
  | l :: out' =>
      (forall n, n ∈ ok_name l -> n ∉ status_names out') /\ settled out'
  end.

(** The command of a task names a script: [cmd[1]] exists. *)
Definition has_script (t : task) : Prop := is_Some (task_cmd t !! 1%nat).

(** A task without its GPU field. *)
Definition job_of (t : task) : list string * string * option string :=
  (task_cmd t, task_name t, task_log t).

(** The entry of [future_to_task] made for the task [t] when it is given
    the GPU [g], the script path [script_path] and the world [w]. *)
Definition submitted (path_parent : string -> string) (w : os_world) (g : Z)
    (script_path : string) (t : task) : future :=
  Future
    (run_one w (task_cmd t) g (task_log t) (path_parent script_path))
    (Task (task_cmd t) g (task_name t) (task_log t)).

(** ** Example worlds *)

(** A child that reports on the job named by the third word of its
    command: B fails with exit code 1, C exits 0 after printing an error,
    U exits 0 after printing an upper-case error, D cannot be started, any
    other job succeeds. *)
Definition demo_output_C : string := "done; ValueError: could not parse".

Definition demo_popen (cmd : list string) (env : gmap string string)
    (cwd : string) : popen_result :=
  match cmd !! 2%nat with
  | Some "B" => PopenExits 1 "CUDA out of memory"
  | Some "C" => PopenExits 0 demo_output_C
  | Some "U" => PopenExits 0 "ERROR: out of memory"
  | Some "D" => PopenRaises (OSError "No such file or directory")
  | _ => PopenExits 0 "done"
  end.

Definition demo_world : os_world :=
  {| environ := {[ "PATH" := "/usr/bin" ]};
     popen := demo_popen;
     open_w := fun _ => None;
     reopen_r := fun _ => None |}.

(** The same child, started only when it is given exactly the environment
    [env0]. *)
Definition picky_world (env0 : gmap string string) : os_world :=
  {| environ := {[ "PATH" := "/usr/bin" ]};
     popen := fun cmd env cwd =>
       if decide (env = env0) then demo_popen cmd env cwd
       else PopenRaises (OSError "unexpected environment");
     open_w := fun _ => None;
     reopen_r := fun _ => None |}.

(** A world in which the log can be read back. *)
Definition logged_world (content : string) : os_world :=
  {| environ := {[ "CUDA_DEVICE_ORDER" := "FASTEST_FIRST" ]};
     popen := demo_popen;
     open_w := fun _ => None;
     reopen_r := fun _ => Some content |}.

Definition demo_script : string := "/opt/openfold/run_pretrained_openfold.py".

Definition demo_task (name : string) : task :=
  Task ["python"; demo_script; name] (-1) name None.

Definition demo_parent (p : string) : string := "/opt/openfold".

Definition demo_tasks : list task :=
  [demo_task "A"; demo_task "B"; demo_task "C"; demo_task "E"].

(** ** More vocabulary and example worlds *)

(** The markers that are not themselves continuations of another marker. *)
Definition core_markers : list string :=
  [ "Traceback (most recent call last)";
    "Error:";
    "Exception:";
    "More than one input sequence found" ].


(** What the futures of a round put on the console and into the two
    lists. *)
Definition status_line (f : future) : list line :=
  match fut_result f with
  | Raise _ => []
  | Ret ret =>
      if ret =? 0 then
        [OkLine (task_gpu (fut_task f)) (task_name (fut_task f))]
      else
        [FailLine (task_gpu (fut_task f)) (task_name (fut_task f)) ret]
  end.

Definition succeeded_of (f : future) : list string :=
  match fut_result f with
  | Ret 0 => [task_name (fut_task f)]
  | _ => []
  end.

Definition failed_of (f : future) : list task :=
  match fut_result f with
  | Ret 0 => []
  | Ret _ => [fut_task f]
  | Raise _ => []
  end.

(** The GPU ids in the order in which a round of [n] jobs takes them. *)
Fixpoint rounds_of_gpus (n : nat) (gpu_ids : list Z) : list Z :=
  match n with
  | O => []
  | S n' => gpu_ids ++ rounds_of_gpus n' gpu_ids
  end.

(** The descriptor [d] is one of the tasks [tasks] up to its GPU field, the
    GPU is one of [gpu_ids], and the command names a script. *)
Definition from_tasks (tasks : list task) (gpu_ids : list Z) (d : task)
  : Prop :=
  (exists t, t ∈ tasks /\ job_of d = job_of t) /\
  task_gpu d ∈ gpu_ids /\
  has_script d.

(** [main] has passed its checks and built its tasks: the GPU ids
    [gpu_ids], the seed directories [seeds] and the tasks [tasks] are the
    ones it goes on with. *)
Definition prepared (h : host) (a : args) (gpu_ids : list Z)
    (seeds : list string) (tasks : list task) : Prop :=
  is_dir h (resolve h (arg_seeds_root a)) = true /\
  is_dir h (resolve h (arg_fasta_dir a)) = true /\
  is_dir h (resolve h (arg_mmcif_dir a)) = true /\
  is_file h (resolve h (arg_script a)) = true /\
  parse_gpus h (arg_gpus a) = Ret gpu_ids /\
  gpu_ids <> [] /\
  select_seeds h (resolve h (arg_seeds_root a)) (arg_include a) = Ret seeds /\
  seeds <> [] /\
  make_log_dir h (arg_log_dir a) = None /\
  make_tasks h a (resolve h (arg_output_root a))
    (resolve h (arg_fasta_dir a)) (resolve h (arg_mmcif_dir a))
    (resolve h (arg_script a)) seeds = Ret tasks.

(** How the end of the rounds becomes the end of [main]. *)
Definition end_of_rounds (r : res (list string * list task * Z)) : main_end :=
  match r with
  | Raise e => Crash e
  | Ret (ok, fail, attempts) => Finished ok fail attempts
  end.

(** An example host: paths are resolved already, the seeds directory holds
    the directories A, B and E and a file, every [mkdir] succeeds, [strip]
    removes blanks at both ends and [int] reads decimal digits. *)
Fixpoint demo_lstrip (s : string) : string :=
  match s with
  | String c s' => if Ascii.eqb c " " then demo_lstrip s' else s
  | EmptyString => EmptyString
  end.

Fixpoint demo_rstrip (s : string) : string :=
  match s with
  | EmptyString => EmptyString
  | String c s' =>
      match demo_rstrip s' with
      | EmptyString => if Ascii.eqb c " " then EmptyString
                       else String c EmptyString
      | r => String c r
      end
  end.

Definition demo_strip (s : string) : string := demo_rstrip (demo_lstrip s).

Fixpoint demo_digits (s : string) (acc : Z) : option Z :=
  match s with
  | EmptyString => Some acc
  | String c s' =>
      let n := Z.of_N (N_of_ascii c) in
      if (48 <=? n) && (n <=? 57) then demo_digits s' (10 * acc + (n - 48))
      else None
  end.

Definition demo_int (x : string) : option Z :=
  match demo_strip x with
  | EmptyString => None
  | s => demo_digits s 0
  end.

Definition demo_host : host :=
  {| resolve := fun p => p;
     is_dir := fun p =>
       existsb (String.eqb p)
         ["/data/seeds"; "/data/fasta"; "/data/mmcif";
          "/data/seeds/A"; "/data/seeds/B"; "/data/seeds/E"];
     is_file := String.eqb demo_script;
     iterdir_sorted := fun p =>
       if String.eqb p "/data/seeds" then
         Ret ["/data/seeds/A"; "/data/seeds/B"; "/data/seeds/E";
              "/data/seeds/README"]
       else Raise (OSError "Not a directory");
     path_name := string_drop 12;
     parent := demo_parent;
     path_join := fun a b => a +:+ "/" +:+ b;
     mkdir := fun _ => None;
     executable := "/usr/bin/python3";
     int_of := demo_int;
     strip := demo_strip |}.

Definition demo_args : args :=
  {| arg_seeds_root := "/data/seeds";
     arg_output_root := "/out";
     arg_fasta_dir := "/data/fasta";
     arg_mmcif_dir := "/data/mmcif";
     arg_script := demo_script;
     arg_config_preset := "model_3_ptm";
     arg_skip_relaxation := false;
     arg_gpus := "0,1";
     arg_include := None;
     arg_dry_run := false;
     arg_log_dir := None;
     arg_max_retries := 1 |}.

(** The child of the example run: the job whose output directory is
    /out/B exits with code 1, every other job succeeds. *)
Definition main_world : os_world :=
  {| environ := {[ "PATH" := "/usr/bin" ]};
     popen := fun cmd env cwd =>
       match cmd !! 5%nat with
       | Some "/out/B" => PopenExits 1 "CUDA out of memory"
       | _ => PopenExits 0 "done"
       end;
     open_w := fun _ => None;
     reopen_r := fun _ => None |}.

(** * Properties *)

(** ** Substring search *)

Lemma append_assoc (a b c : string) : (a +:+ b) +:+ c = a +:+ b +:+ c.
Proof.
  induction a as [|x a IH]; [reflexivity|].
  change (String x ((a +:+ b) +:+ c) = String x (a +:+ b +:+ c)).
  now rewrite IH.
Qed.

Lemma startswith_app (m post : string) : startswith m (m +:+ post) = true.
Proof.
  induction m as [|a m IH]; simpl; [reflexivity|].
  now rewrite Ascii.eqb_refl.
Qed.

Lemma startswith_inv (m text : string) :
  startswith m text = true -> exists post, text = m +:+ post.
Proof.
  revert text; induction m as [|a m IH]; intros text H; simpl in *.
  - now exists text.
  - destruct text as [|b text]; [discriminate|].
    destruct (Ascii.eqb a b) eqn:E; [|discriminate].
    apply Ascii.eqb_eq in E; subst b.
    destruct (IH _ H) as [post ->]. now exists post.
Qed.

Lemma str_in_iff (m text : string) :
  str_in m text = true <-> substring m text.
Proof.
  split.
  - induction text as [|b text IH]; simpl; intros H.
    + apply orb_true_iff in H as [H|H]; [|discriminate].
      apply startswith_inv in H as [post ->]. now exists "", post.
    + apply orb_true_iff in H as [H|H].
      * apply startswith_inv in H as [post ->]. now exists "", post.
      * destruct (IH H) as (pre & post & ->). now exists (String b pre), post.
  - intros (pre & post & ->).
    induction pre as [|b pre IH]; simpl.
    + destruct (m +:+ post) eqn:E; simpl.
      * rewrite <- E, startswith_app. reflexivity.
      * rewrite <- E, startswith_app. reflexivity.
    + apply orb_true_iff. right. exact IH.
Qed.

Lemma any_in_iff (markers : list string) (text : string) :
  any_in markers text = true <->
  exists m, In m markers /\ substring m text.
Proof.
  unfold any_in. rewrite existsb_exists.
  split; intros (m & Hm & H); exists m; split; auto; now apply str_in_iff.
Qed.

Lemma any_in_false (markers : list string) (text : string) :
  any_in markers text = false <->
  forall m, In m markers -> ~ substring m text.
Proof.
  rewrite <- not_true_iff_false, any_in_iff. split.
  - intros H m Hm Hs. apply H. now exists m.
  - intros H (m & Hm & Hs). now apply (H m).
Qed.

(** ** The verdict of [run_one] *)

Lemma classify_zero_iff (ret : Z) (text : string) :
  classify ret text = 0 <->
  ret = 0 /\ forall m, In m err_markers -> ~ substring m text.
Proof.
  unfold classify. destruct (Z.eqb_spec ret 0) as [->|Hne].
  - destruct (any_in err_markers text) eqn:E.
    + split; [discriminate|]. intros [_ H].
      apply any_in_false in H. congruence.
    + split; [|reflexivity]. intros _. split; [reflexivity|].
      now apply any_in_false.
  - split; [contradiction|]. now intros [? _].
Qed.

Lemma classify_marker (text : string) :
  (exists m, In m err_markers /\ substring m text) -> classify 0 text = 1.
Proof.
  intros H. apply any_in_iff in H. unfold classify.
  rewrite Z.eqb_refl. cbv zeta. now rewrite H.
Qed.

Lemma classify_nonzero (ret : Z) (text : string) :
  ret <> 0 -> classify ret text = ret.
Proof.
  intros H. unfold classify. now destruct (Z.eqb_spec ret 0).
Qed.

Lemma run_one_classify (w : os_world) (cmd : list string) (gpu_id : Z)
    (log_file : option string) (cwd : string) (ret : Z) (out : string) :
  log_writable w log_file ->
  popen w cmd (child_env (environ w) gpu_id) cwd = PopenExits ret out ->
  run_one w cmd gpu_id log_file cwd
  = Ret (classify ret (captured_text w log_file out)).
Proof.
  intros Hlog Hp. unfold run_one, run_child, captured_text.
  destruct log_file as [path|]; simpl in *.
  - now rewrite Hlog, Hp.
  - now rewrite Hp.
Qed.

(** C1. Whenever the child runs to an exit code [ret], [run_one] returns a
    code [v] that is zero exactly when [ret] is zero and no failure marker
    is a substring of the captured text; a zero exit with a marker in the
    text gives the synthetic code 1; a nonzero exit code is returned as it
    is, whatever the text. *)
Theorem run_one_verdict (w : os_world) (cmd : list string) (gpu_id : Z)
    (log_file : option string) (cwd : string) (ret : Z) (out : string) :
  log_writable w log_file ->
  popen w cmd (child_env (environ w) gpu_id) cwd = PopenExits ret out ->
  exists v,
    run_one w cmd gpu_id log_file cwd = Ret v /\
    (v = 0 <->
     ret = 0 /\
     forall m, In m err_markers ->
       ~ substring m (captured_text w log_file out)) /\
    (ret = 0 ->
     (exists m, In m err_markers /\
        substring m (captured_text w log_file out)) ->
     v = 1 /\ v <> 0) /\
    (ret <> 0 -> v = ret /\ v <> 0).
Proof.
  intros Hlog Hp. exists (classify ret (captured_text w log_file out)).
  split; [now apply run_one_classify|].
  split; [apply classify_zero_iff|]. split.
  - intros -> Hm. rewrite (classify_marker _ Hm). split; [reflexivity|lia].
  - intros Hne. now rewrite classify_nonzero.
Qed.

Lemma run_one_verdict_witness :
  exists v,
    run_one demo_world (task_cmd (demo_task "C")) 1 None "/opt/openfold"
    = Ret v /\
    (v = 0 <->
     0 = 0 /\
     forall m, In m err_markers ->
       ~ substring m (captured_text demo_world None demo_output_C)) /\
    (0 = 0 ->
     (exists m, In m err_markers /\
        substring m (captured_text demo_world None demo_output_C)) ->
     v = 1 /\ v <> 0) /\
    (0 <> 0 -> v = 0 /\ v <> 0).
Proof.
  apply (run_one_verdict demo_world (task_cmd (demo_task "C")) 1 None
           "/opt/openfold" 0).
  - exact I.
  - reflexivity.
Defined.

(** C10. The scan is a literal, case-sensitive substring test: after a
    zero exit [run_one] returns 1 exactly when some marker occurs in the
    captured text as it is, and 0 otherwise. The markers "Error:" and
    "Exception:" are in the list, so a text that has one of them anywhere,
    also at the end of a longer name such as "ValueError:" or "KeyError:",
    gives 1, while "ERROR:", "error:" and "EXCEPTION:" do not. *)
Theorem marker_scan_case_sensitive (w : os_world) (cmd : list string)
    (gpu_id : Z) (log_file : option string) (cwd : string) (out : string) :
  log_writable w log_file ->
  popen w cmd (child_env (environ w) gpu_id) cwd = PopenExits 0 out ->
  let text := captured_text w log_file out in
  let verdict := run_one w cmd gpu_id log_file cwd in
  (In "Error:" err_markers /\ In "Exception:" err_markers) /\
  ((exists m, In m err_markers /\ substring m text) -> verdict = Ret 1) /\
  ((forall m, In m err_markers -> ~ substring m text) -> verdict = Ret 0) /\
  (substring "Error:" text \/ substring "Exception:" text -> verdict = Ret 1) /\
  (forall name pre post,
     text = pre +:+ (name +:+ "Error:") +:+ post -> verdict = Ret 1) /\
  (text = "ValueError: bad shape" -> verdict = Ret 1) /\
  (text = "KeyError: 'seed'" -> verdict = Ret 1) /\
  (text = "ERROR: out of memory" -> verdict = Ret 0) /\
  (text = "error: out of memory" -> verdict = Ret 0) /\
  (text = "EXCEPTION: out of memory" -> verdict = Ret 0) /\
  (text = "runtimeerror: out of memory" -> verdict = Ret 0).
Proof.
  intros Hlog Hp text verdict.
  assert (Hv : verdict = Ret (classify 0 text))
    by (now apply run_one_classify).
  assert (Hin : In "Error:" err_markers /\ In "Exception:" err_markers)
    by (unfold err_markers; simpl; tauto).
  rewrite Hv. split; [exact Hin|].
  split; [intros H; now rewrite classify_marker|].
  split.
  { intros H. f_equal. apply classify_zero_iff. now split. }
  split.
  { intros [H|H]; rewrite classify_marker; trivial;
      [exists "Error:"|exists "Exception:"]; tauto. }
  split.
  { intros name pre post E. rewrite classify_marker; trivial.
    exists "Error:". split; [tauto|].
    exists (pre +:+ name), post. rewrite E.
    now rewrite !append_assoc. }
  repeat split; intros ->; reflexivity.
Qed.

Lemma marker_scan_case_sensitive_witness :
  let text := captured_text demo_world None demo_output_C in
  let verdict :=
    run_one demo_world (task_cmd (demo_task "C")) 0 None "/opt/openfold" in
  (In "Error:" err_markers /\ In "Exception:" err_markers) /\
  ((exists m, In m err_markers /\ substring m text) -> verdict = Ret 1) /\
  ((forall m, In m err_markers -> ~ substring m text) -> verdict = Ret 0) /\
  (substring "Error:" text \/ substring "Exception:" text -> verdict = Ret 1) /\
  (forall name pre post,
     text = pre +:+ (name +:+ "Error:") +:+ post -> verdict = Ret 1) /\
  (text = "ValueError: bad shape" -> verdict = Ret 1) /\
  (text = "KeyError: 'seed'" -> verdict = Ret 1) /\
  (text = "ERROR: out of memory" -> verdict = Ret 0) /\
  (text = "error: out of memory" -> verdict = Ret 0) /\
  (text = "EXCEPTION: out of memory" -> verdict = Ret 0) /\
  (text = "runtimeerror: out of memory" -> verdict = Ret 0).
Proof.
  apply (marker_scan_case_sensitive demo_world (task_cmd (demo_task "C")) 0
           None "/opt/openfold").
  - exact I.
  - reflexivity.
Defined.

(** ** The child's environment *)

Lemma child_env_visible (environ : gmap string string) (gpu_id : Z) :
  child_env environ gpu_id !! "CUDA_VISIBLE_DEVICES" = Some (str gpu_id).
Proof.
  unfold child_env, setdefault.
  destruct (_ !! "CUDA_DEVICE_ORDER").
  - apply lookup_insert_eq.
  - rewrite lookup_insert_ne by discriminate. apply lookup_insert_eq.
Qed.

Lemma child_env_order (environ : gmap string string) (gpu_id : Z) :
  child_env environ gpu_id !! "CUDA_DEVICE_ORDER"
  = Some (default "PCI_BUS_ID" (environ !! "CUDA_DEVICE_ORDER")).
Proof.
  unfold child_env, setdefault.
  rewrite (lookup_insert_ne environ "CUDA_VISIBLE_DEVICES") by discriminate.
  destruct (environ !! "CUDA_DEVICE_ORDER") as [v|] eqn:E; simpl.
  - now rewrite lookup_insert_ne by discriminate.
  - apply lookup_insert_eq.
Qed.

Lemma child_env_other (environ : gmap string string) (gpu_id : Z)
    (k : string) :
  k <> "CUDA_VISIBLE_DEVICES" -> k <> "CUDA_DEVICE_ORDER" ->
  child_env environ gpu_id !! k = environ !! k.
Proof.
  intros H1 H2. unfold child_env, setdefault.
  destruct (_ !! "CUDA_DEVICE_ORDER").
  - now rewrite lookup_insert_ne by congruence.
  - now rewrite !lookup_insert_ne by congruence.
Qed.

(** C6. The environment handed to the child is [os.environ] with
    CUDA_VISIBLE_DEVICES set to the string form of the GPU id, with
    CUDA_DEVICE_ORDER kept when it is set and set to PCI_BUS_ID when it is
    not, and with every other variable as it is. [run_one] starts the
    child with this environment and no other: a world that differs only
    in what the child would do under another environment gives the same
    result. *)
Theorem child_environment (w : os_world) (gpu_id : Z) :
  let env := child_env (environ w) gpu_id in
  env !! "CUDA_VISIBLE_DEVICES" = Some (str gpu_id) /\
  env !! "CUDA_DEVICE_ORDER"
  = match environ w !! "CUDA_DEVICE_ORDER" with
    | Some v => Some v
    | None => Some "PCI_BUS_ID"
    end /\
  (forall k, k <> "CUDA_VISIBLE_DEVICES" -> k <> "CUDA_DEVICE_ORDER" ->
     env !! k = environ w !! k) /\
  (forall w' cmd log_file cwd,
     environ w' = environ w ->
     open_w w' = open_w w ->
     reopen_r w' = reopen_r w ->
     popen w' cmd env cwd = popen w cmd env cwd ->
     run_one w' cmd gpu_id log_file cwd = run_one w cmd gpu_id log_file cwd).
Proof.
  intros env. split; [apply child_env_visible|].
  split.
  { unfold env. rewrite child_env_order. now destruct (environ w !! _). }
  split; [apply child_env_other|].
  intros w' cmd log_file cwd He Ho Hr Hp.
  unfold run_one, run_child. rewrite He, Ho, Hr. fold env. now rewrite Hp.
Qed.

Lemma child_environment_witness :
  run_one (picky_world (child_env (environ demo_world) 3))
    (task_cmd (demo_task "A")) 3 None "/opt/openfold"
  = run_one demo_world (task_cmd (demo_task "A")) 3 None "/opt/openfold".
Proof.
  apply (child_environment demo_world 3); reflexivity.
Defined.

(** ** Reading the log back *)

(** C7. With a log file, when the log cannot be read back after the child
    has ended, the scanned text is empty and [run_one] returns the child's
    exit code: it does not raise, and the verdict is that of the exit code
    alone, whatever the child printed. *)
Theorem tail_read_failure (w : os_world) (cmd : list string) (gpu_id : Z)
    (path cwd : string) (ret : Z) (out : string) :
  open_w w path = None ->
  popen w cmd (child_env (environ w) gpu_id) cwd = PopenExits ret out ->
  reopen_r w path = None ->
  captured_text w (Some path) out = "" /\
  any_in err_markers (captured_text w (Some path) out) = false /\
  run_one w cmd gpu_id (Some path) cwd = Ret ret.
Proof.
  intros Ho Hp Hr.
  assert (Ht : captured_text w (Some path) out = "")
    by (unfold captured_text; now rewrite Hr).
  rewrite Ht. split; [reflexivity|]. split; [reflexivity|].
  rewrite (run_one_classify w cmd gpu_id (Some path) cwd ret out Ho Hp), Ht.
  f_equal. unfold classify.
  now destruct (ret =? 0) eqn:E; [apply Z.eqb_eq in E|].
Qed.

Lemma tail_read_failure_witness :
  captured_text demo_world (Some "/logs/C.log") demo_output_C = "" /\
  any_in err_markers
    (captured_text demo_world (Some "/logs/C.log") demo_output_C) = false /\
  run_one demo_world (task_cmd (demo_task "C")) 2 (Some "/logs/C.log")
    "/opt/openfold" = Ret 0.
Proof.
  apply (tail_read_failure demo_world (task_cmd (demo_task "C")) 2
           "/logs/C.log" "/opt/openfold" 0); reflexivity.
Defined.

(** The tail window keeps at most [tail] characters, and a log that is
    not longer than that is scanned whole. *)
Lemma string_drop_length (k : nat) (s : string) :
  String.length (string_drop k s) = (String.length s - k)%nat.
Proof.
  revert s. induction k as [|k IH]; intros s; simpl; [lia|].
  destruct s as [|a s]; simpl; [reflexivity|apply IH].
Qed.

Lemma read_tail_length (content : string) :
  Z.of_nat (String.length (read_tail content)) <= tail.
Proof. unfold read_tail, tail. rewrite string_drop_length. lia. Qed.


Example log_with_marker :
  run_one (logged_world "step 1; RuntimeError: CUDA error")
    (task_cmd (demo_task "A")) 0 (Some "/logs/A.log") "/opt/openfold"
  = Ret 1.
Proof. vm_compute. reflexivity. Qed.

Example log_without_marker :
  run_one (logged_world "all finished") (task_cmd (demo_task "A")) 0
    (Some "/logs/A.log") "/opt/openfold" = Ret 0.
Proof. vm_compute. reflexivity. Qed.

Example device_order_kept :
  child_env (environ (logged_world "")) 5 !! "CUDA_DEVICE_ORDER"
  = Some "FASTEST_FIRST" /\
  child_env (environ demo_world) 5 !! "CUDA_DEVICE_ORDER"
  = Some "PCI_BUS_ID".
Proof. vm_compute. split; reflexivity. Qed.

Example upper_case_is_not_a_marker :
  run_one demo_world (task_cmd (demo_task "U")) 0 None "/opt/openfold"
  = Ret 0.
Proof. vm_compute. reflexivity. Qed.

(** ** Completion order *)

Lemma take_out_perm {A : Type} (k : nat) (l : list A) (x : A) (r : list A) :
  take_out k l = Some (x, r) -> l ≡ₚ x :: r.
Proof.
  revert k x r. induction l as [|a l IH]; intros k x r H; simpl in H.
  - discriminate.
  - destruct k as [|k].
    + now inversion H.
    + destruct (take_out k l) as [[y r']|] eqn:E; [|discriminate].
      inversion H; subst. rewrite (IH _ _ _ E). apply perm_swap.
Qed.

Lemma take_out_lt {A : Type} (k : nat) (l : list A) :
  (k < length l)%nat -> exists x r, take_out k l = Some (x, r).
Proof.
  revert k. induction l as [|a l IH]; intros k H; simpl in *; [lia|].
  destruct k as [|k]; [now eauto|].
  destruct (IH k) as (x & r & ->); [lia|]. eauto.
Qed.

Lemma as_completed_from_perm {A : Type} (n : nat) (schedule : list nat)
    (l : list A) :
  length l = n -> as_completed_from n schedule l ≡ₚ l.
Proof.
  revert schedule l. induction n as [|n IH]; intros schedule l Hl; simpl.
  - now destruct l.
  - destruct (take_out_lt (Nat.modulo (hd O schedule) (length l)) l)
      as (x & r & E).
    { apply Nat.mod_upper_bound. lia. }
    rewrite E. pose proof (take_out_perm _ _ _ _ E) as Hp.
    rewrite Hp. constructor. apply IH.
    apply Permutation_length in Hp. simpl in Hp. lia.
Qed.

Lemma as_completed_perm {A : Type} (schedule : list nat) (l : list A) :
  as_completed schedule l ≡ₚ l.
Proof. now apply as_completed_from_perm. Qed.

Lemma take_out_elem {A : Type} (x : A) (l : list A) :
  x ∈ l ->
  exists k r, (k < length l)%nat /\ take_out k l = Some (x, r).
Proof.
  induction 1 as [x l|x y l _ (k & r & Hk & IH)].
  - exists 0%nat, l. simpl. split; [lia|reflexivity].
  - exists (S k), (y :: r). simpl. rewrite IH. split; [lia|reflexivity].
Qed.

(** Every order of completion is the order of some schedule. *)
Lemma as_completed_any {A : Type} (l' : list A) :
  forall l, l' ≡ₚ l -> exists schedule, as_completed schedule l = l'.
Proof.
  induction l' as [|x l' IH]; intros l Hp.
  - apply Permutation_nil in Hp. subst l. now exists [].
  - destruct (take_out_elem x l) as (k & r & Hk & E).
    { rewrite <- Hp. apply list_elem_of_here. }
    pose proof (take_out_perm _ _ _ _ E) as Hr.
    assert (Hp' : l' ≡ₚ r).
    { apply (Permutation_cons_inv (a := x)). now rewrite Hp, Hr. }
    destruct (IH r Hp') as [s Hs]. exists (k :: s).
    unfold as_completed in *.
    assert (Hl : length l = S (length r)).
    { apply Permutation_length in Hr. exact Hr. }
    rewrite Hl. simpl. rewrite Nat.mod_small by exact Hk.
    now rewrite E, Hs.
Qed.

(** ** Reading the console *)

Lemma ok_names_app (o1 o2 : list line) :
  ok_names (o1 ++ o2) = ok_names o1 ++ ok_names o2.
Proof. apply flat_map_app. Qed.

Lemma fail_names_app (o1 o2 : list line) :
  fail_names (o1 ++ o2) = fail_names o1 ++ fail_names o2.
Proof. apply flat_map_app. Qed.

Lemma status_names_app (o1 o2 : list line) :
  status_names (o1 ++ o2) = status_names o1 ++ status_names o2.
Proof. apply flat_map_app. Qed.

Lemma retries_app (o1 o2 : list line) :
  retries (o1 ++ o2) = retries o1 ++ retries o2.
Proof. apply flat_map_app. Qed.

Lemma status_names_split (out : list line) :
  ok_names out ++ fail_names out ≡ₚ status_names out.
Proof.
  induction out as [|l out IH]; [reflexivity|].
  destruct l; simpl; try exact IH.
  - now constructor.
  - rewrite <- IH. symmetry. apply Permutation_middle.
Qed.

Lemma ok_names_status (out : list line) (n : string) :
  n ∈ ok_names out -> n ∈ status_names out.
Proof.
  intros H. rewrite <- status_names_split. apply elem_of_app. now left.
Qed.

Lemma settled_app (o1 o2 : list line) :
  settled o1 -> settled o2 ->
  (forall n, n ∈ ok_names o1 -> n ∉ status_names o2) ->
  settled (o1 ++ o2).
Proof.
  induction o1 as [|l o1 IH]; intros H1 H2 H; simpl; [exact H2|].
  destruct H1 as [Hl H1]. split.
  - intros n Hn. rewrite status_names_app, elem_of_app.
    intros [Hc|Hc]; [now apply (Hl n)|].
    apply (H n); [|exact Hc].
    unfold ok_names. simpl. apply elem_of_app. now left.
  - apply IH; trivial. intros n Hn. apply H.
    unfold ok_names. simpl. apply elem_of_app. now right.
Qed.

Lemma settled_split (out pre post : list line) (g : Z) (n : string) :
  settled out -> out = pre ++ OkLine g n :: post -> n ∉ status_names post.
Proof.
  intros H ->. induction pre as [|l pre IH]; simpl in H.
  - destruct H as [H _]. apply H. simpl.
    apply list_elem_of_singleton. reflexivity.
  - apply IH. tauto.
Qed.

Lemma settled_NoDup (out : list line) :
  NoDup (status_names out) -> settled out.
Proof.
  induction out as [|l out IH]; simpl; [trivial|].
  change (status_names (l :: out)) with (status_name l ++ status_names out).
  intros H. apply NoDup_app in H as (_ & H1 & H2). split; [|now apply IH].
  intros n Hn. apply H1. unfold status_name. apply elem_of_app. now left.
Qed.

Lemma settled_ok_NoDup (out : list line) : settled out -> NoDup (ok_names out).
Proof.
  induction out as [|l out IH]; simpl; [constructor|].
  intros [H1 H2]. change (ok_names (l :: out)) with (ok_name l ++ ok_names out).
  apply NoDup_app. split; [|split; [|now apply IH]].
  - destruct l; simpl; first [apply NoDup_nil_2 | apply NoDup_singleton].
  - intros n Hn Hc. apply (H1 n Hn). now apply ok_names_status.
Qed.

(** ** One round *)

Section RoundFacts.

Variable path_parent : string -> string.

Lemma submit_from_lookup (w : nat -> os_world) (gpu_ids : list Z)
    (tasks : list task) :
  forall (i : nat) (futs : list future),
  submit_from path_parent w gpu_ids i tasks = Ret futs ->
  forall (j : nat) (t : task), tasks !! j = Some t ->
  exists g script_path,
    gpu_ids !! Nat.modulo (i + j) (length gpu_ids) = Some g /\
    task_cmd t !! 1%nat = Some script_path /\
    futs !! j = Some (submitted path_parent (w (i + j)%nat) g script_path t).
Proof.
  induction tasks as [|t0 tasks IH]; intros i futs H j t Hj;
    [destruct j; discriminate|].
  simpl in H. destruct t0 as [cmd g0 name log].
  destruct (gpu_ids !! Nat.modulo i (length gpu_ids)) as [g|] eqn:Eg;
    [|discriminate].
  destruct (cmd !! 1%nat) as [sp|] eqn:Es; [|discriminate].
  destruct (submit_from path_parent w gpu_ids (S i) tasks) as [futs'|] eqn:E;
    [|discriminate].
  simpl in H. inversion H; subst futs; clear H.
  destruct j as [|j]; simpl in Hj.
  - inversion Hj; subst t. exists g, sp. rewrite Nat.add_0_r. now split.
  - destruct (IH _ _ E _ _ Hj) as (g' & sp' & H1 & H2 & H3).
    exists g', sp'. replace (i + S j)%nat with (S i + j)%nat by lia. now split.
Qed.

Lemma submit_from_names (w : nat -> os_world) (gpu_ids : list Z)
    (tasks : list task) :
  forall (i : nat) (futs : list future),
  submit_from path_parent w gpu_ids i tasks = Ret futs ->
  map job_of (map fut_task futs) = map job_of tasks.
Proof.
  induction tasks as [|t0 tasks IH]; intros i futs H; simpl in H.
  - now inversion H.
  - destruct t0 as [cmd g0 name log].
    destruct (gpu_ids !! Nat.modulo i (length gpu_ids)) as [g|];
      [|discriminate].
    destruct (cmd !! 1%nat) as [sp|]; [|discriminate].
    destruct (submit_from path_parent w gpu_ids (S i) tasks) as [futs'|] eqn:E;
      [|discriminate].
    simpl in H. inversion H; subst futs. simpl. f_equal. now apply (IH (S i)).
Qed.

Lemma submit_from_total (w : nat -> os_world) (gpu_ids : list Z)
    (tasks : list task) :
  gpu_ids <> [] -> Forall has_script tasks ->
  forall i, exists futs, submit_from path_parent w gpu_ids i tasks = Ret futs.
Proof.
  intros Hg Hs. induction Hs as [|t tasks [sp Ht] _ IH]; intros i; simpl.
  - now eexists.
  - destruct t as [cmd g0 name log]. simpl in Ht.
    destruct (lookup_lt_is_Some_2 gpu_ids (Nat.modulo i (length gpu_ids)))
      as [g Eg].
    { apply Nat.mod_upper_bound. destruct gpu_ids; simpl; [congruence|lia]. }
    rewrite Eg, Ht. destruct (IH (S i)) as [futs ->]. simpl. now eexists.
Qed.

Lemma job_of_names (l1 l2 : list task) :
  map job_of l1 = map job_of l2 -> map task_name l1 = map task_name l2.
Proof.
  intros H. apply (f_equal (map (fun j => snd (fst j)))) in H.
  now rewrite !map_map in H.
Qed.

Lemma collect_ret (done : list future) :
  forall (ok : list string) (fail : list task) (out : list line)
         (ok' : list string) (fail' : list task),
  collect done ok fail = (out, Ret (ok', fail')) ->
  ok' = ok ++ ok_names out /\
  map task_name fail' = map task_name fail ++ fail_names out /\
  status_names out = map (fun f => task_name (fut_task f)) done /\
  retries out = [] /\
  (forall d, d ∈ fail' ->
     d ∈ fail \/
     exists f ret,
       f ∈ done /\ fut_task f = d /\ fut_result f = Ret ret /\ ret <> 0).
Proof.
  induction done as [|f done IH]; intros ok fail out ok' fail' H; simpl in H.
  - inversion H; subst. rewrite !app_nil_r. repeat split; auto.
  - destruct (fut_result f) as [ret|e] eqn:Er; [|discriminate].
    destruct (fut_task f) as [cmd g name log] eqn:Et.
    destruct (Z.eqb_spec ret 0) as [->|Hne].
    + destruct (collect done (ok ++ [name]) fail) as [o r] eqn:E.
      unfold printed in H. simpl in H. inversion H; subst out r; clear H.
      destruct (IH _ _ _ _ _ E) as (H1 & H2 & H3 & H4 & H5).
      split; [now rewrite H1, <- app_assoc|].
      split; [exact H2|].
      split; [cbn [map]; rewrite Et, <- H3; reflexivity|].
      split; [exact H4|].
      intros d Hd. destruct (H5 d Hd) as [?|(f' & r' & ? & ?)]; [now left|].
      right. exists f', r'. split; [now apply list_elem_of_further|trivial].
    + destruct (collect done ok (fail ++ [Task cmd g name log])) as [o r] eqn:E.
      unfold printed in H. simpl in H. inversion H; subst out r; clear H.
      destruct (IH _ _ _ _ _ E) as (H1 & H2 & H3 & H4 & H5).
      split; [exact H1|].
      split; [rewrite H2, map_app, <- app_assoc; reflexivity|].
      split; [cbn [map]; rewrite Et, <- H3; reflexivity|].
      split; [exact H4|].
      intros d Hd. destruct (H5 d Hd) as [Hin|(f' & r' & ? & ?)].
      * apply elem_of_app in Hin as [?|Hin]; [now left|].
        apply list_elem_of_singleton in Hin. subst d. right.
        exists f, ret. split; [apply list_elem_of_here|]. now split.
      * right. exists f', r'. split; [now apply list_elem_of_further|trivial].
Qed.

Lemma collect_total (done : list future) :
  Forall (fun f => exists ret, fut_result f = Ret ret) done ->
  forall ok fail, exists out ok' fail',
    collect done ok fail = (out, Ret (ok', fail')).
Proof.
  induction 1 as [|f done [ret Hf] _ IH]; intros ok fail; simpl.
  - now eauto.
  - rewrite Hf. destruct (fut_task f) as [cmd g name log].
    destruct (ret =? 0).
    + destruct (IH (ok ++ [name]) fail) as (o & ok' & fail' & ->).
      unfold printed. simpl. eauto.
    + destruct (IH ok (fail ++ [Task cmd g name log]))
        as (o & ok' & fail' & ->).
      unfold printed. simpl. eauto.
Qed.

Lemma collect_raise (done : list future) :
  Exists (fun f => exists e, fut_result f = Raise e) done ->
  forall ok fail, exists out e f,
    collect done ok fail = (out, Raise e) /\
    f ∈ done /\ fut_result f = Raise e.
Proof.
  induction done as [|f done IH]; intros H ok fail; [inversion H|].
  simpl. destruct (fut_result f) as [ret|e] eqn:Er.
  - assert (H' : Exists (fun f => exists e, fut_result f = Raise e) done).
    { inversion H as [? ? [e He]|]; subst; [congruence|trivial]. }
    destruct (fut_task f) as [cmd g name log].
    destruct (ret =? 0).
    + destruct (IH H' (ok ++ [name]) fail) as (o & e & f' & -> & Hin & Hf).
      unfold printed. simpl. exists (OkLine g name :: o), e, f'.
      split; [reflexivity|]. split; [now apply list_elem_of_further|trivial].
    + destruct (IH H' ok (fail ++ [Task cmd g name log]))
        as (o & e & f' & -> & Hin & Hf).
      unfold printed. simpl. exists (FailLine g name ret :: o), e, f'.
      split; [reflexivity|]. split; [now apply list_elem_of_further|trivial].
  - exists [], e, f. split; [reflexivity|].
    split; [apply list_elem_of_here|trivial].
Qed.

Lemma collect_retries (done : list future) :
  forall ok fail, retries (fst (collect done ok fail)) = [].
Proof.
  induction done as [|f done IH]; intros ok fail; simpl; [reflexivity|].
  destruct (fut_result f) as [ret|e]; [|reflexivity].
  destruct (fut_task f) as [cmd g name log].
  destruct (ret =? 0); unfold printed; simpl; apply IH.
Qed.

Lemma run_tasks_retries (w : nat -> os_world) (schedule : list nat)
    (tasks : list task) (gpu_ids : list Z) (script : string) :
  retries (fst (run_tasks path_parent w schedule tasks gpu_ids script)) = [].
Proof.
  unfold run_tasks. destruct (length gpu_ids =? 0)%nat; [reflexivity|].
  destruct (submit_from path_parent w gpu_ids 0 tasks); [|reflexivity].
  apply collect_retries.
Qed.

(** What a round that returns has done. *)
Lemma run_tasks_ret (w : nat -> os_world) (schedule : list nat)
    (tasks : list task) (gpu_ids : list Z) (script : string)
    (out : list line) (ok : list string) (fail : list task) :
  run_tasks path_parent w schedule tasks gpu_ids script
  = (out, Ret (ok, fail)) ->
  gpu_ids <> [] /\
  exists futs,
    submit_from path_parent w gpu_ids 0 tasks = Ret futs /\
    collect (as_completed schedule futs) [] [] = (out, Ret (ok, fail)).
Proof.
  unfold run_tasks. intros H.
  destruct gpu_ids as [|g gpu_ids]; [discriminate|]. split; [discriminate|].
  simpl in H.
  destruct (submit_from path_parent w (g :: gpu_ids) 0 tasks) as [futs|];
    [|discriminate].
  now exists futs.
Qed.

Lemma run_tasks_console (w : nat -> os_world) (schedule : list nat)
    (tasks : list task) (gpu_ids : list Z) (script : string)
    (out : list line) (ok : list string) (fail : list task) :
  run_tasks path_parent w schedule tasks gpu_ids script
  = (out, Ret (ok, fail)) ->
  ok = ok_names out /\
  map task_name fail = fail_names out /\
  status_names out ≡ₚ map task_name tasks /\
  retries out = [].
Proof.
  intros H. apply run_tasks_ret in H as (_ & futs & Hs & Hc).
  apply collect_ret in Hc as (H1 & H2 & H3 & H4 & _).
  split; [exact H1|]. split; [exact H2|]. split; [|exact H4].
  rewrite H3, (as_completed_perm schedule futs).
  apply submit_from_names in Hs. apply job_of_names in Hs.
  rewrite map_map in Hs. now rewrite Hs.
Qed.

Lemma submit_from_length (w : nat -> os_world) (gpu_ids : list Z)
    (tasks : list task) (i : nat) (futs : list future) :
  submit_from path_parent w gpu_ids i tasks = Ret futs ->
  length futs = length tasks.
Proof.
  intros H. apply submit_from_names in H.
  apply (f_equal (@length _)) in H. now rewrite !length_map in H.
Qed.

(** Every future of a round comes from the task at its position. *)
Lemma submit_from_origin (w : nat -> os_world) (gpu_ids : list Z)
    (tasks : list task) (futs : list future) (f : future) :
  submit_from path_parent w gpu_ids 0 tasks = Ret futs ->
  f ∈ futs ->
  exists i t g script_path,
    tasks !! i = Some t /\
    gpu_ids !! Nat.modulo i (length gpu_ids) = Some g /\
    task_cmd t !! 1%nat = Some script_path /\
    f = submitted path_parent (w i) g script_path t.
Proof.
  intros Hs Hf. apply list_elem_of_lookup in Hf as [i Hi].
  destruct (lookup_lt_is_Some_2 tasks i) as [t Ht].
  { rewrite <- (submit_from_length _ _ _ _ _ Hs).
    now apply lookup_lt_Some in Hi. }
  destruct (submit_from_lookup _ _ _ _ _ Hs _ _ Ht) as (g & sp & H1 & H2 & H3).
  simpl in *. exists i, t, g, sp. repeat split; trivial. congruence.
Qed.

Lemma submit_from_job_of (w : nat -> os_world) (gpu_ids : list Z)
    (tasks1 : list task) :
  forall (tasks2 : list task) (i : nat),
  map job_of tasks1 = map job_of tasks2 ->
  submit_from path_parent w gpu_ids i tasks1
  = submit_from path_parent w gpu_ids i tasks2.
Proof.
  induction tasks1 as [|t1 tasks1 IH]; intros [|t2 tasks2] i H;
    try discriminate; [reflexivity|].
  destruct t1 as [c1 g1 n1 l1], t2 as [c2 g2 n2 l2].
  simpl in H. inversion H; subst. simpl.
  now rewrite (IH tasks2 (S i)).
Qed.

(** Where a failed descriptor comes from. *)
Lemma run_tasks_fail_origin (w : nat -> os_world) (schedule : list nat)
    (tasks : list task) (gpu_ids : list Z) (script : string)
    (out : list line) (ok : list string) (fail : list task) (d : task) :
  run_tasks path_parent w schedule tasks gpu_ids script
  = (out, Ret (ok, fail)) ->
  d ∈ fail ->
  exists i t g script_path ret,
    tasks !! i = Some t /\
    gpu_ids !! Nat.modulo i (length gpu_ids) = Some g /\
    task_cmd t !! 1%nat = Some script_path /\
    d = Task (task_cmd t) g (task_name t) (task_log t) /\
    run_one (w i) (task_cmd t) g (task_log t) (path_parent script_path)
    = Ret ret /\
    ret <> 0.
Proof.
  intros H Hd. apply run_tasks_ret in H as (_ & futs & Hs & Hc).
  apply collect_ret in Hc as (_ & _ & _ & _ & H5).
  destruct (H5 d Hd) as [Hin|(f & ret & Hf & Ht & Hr & Hne)];
    [now apply elem_of_nil in Hin|].
  rewrite (as_completed_perm schedule futs) in Hf.
  destruct (submit_from_origin _ _ _ _ _ Hs Hf)
    as (i & t & g & sp & H1 & H2 & H3 & ->).
  simpl in *. exists i, t, g, sp, ret. now repeat split.
Qed.

(** C2. A round that returns has given every submitted job one verdict:
    the succeeded names together with the names of the failed descriptors
    are, counted with repetitions, the names of the submitted jobs; as
    sets they are equal; and when the submitted names are pairwise
    distinct (they are directory names in [main]) no name is in both
    lists. A round in which no call of [run_one] raises does return. *)
Theorem round_partition (w : nat -> os_world) (schedule : list nat)
    (tasks : list task) (gpu_ids : list Z) (script : string) :
  (gpu_ids <> [] -> Forall has_script tasks ->
   (forall i t g script_path,
      tasks !! i = Some t ->
      gpu_ids !! Nat.modulo i (length gpu_ids) = Some g ->
      task_cmd t !! 1%nat = Some script_path ->
      exists ret,
        run_one (w i) (task_cmd t) g (task_log t) (path_parent script_path)
        = Ret ret) ->
   exists out ok fail,
     run_tasks path_parent w schedule tasks gpu_ids script
     = (out, Ret (ok, fail))) /\
  (forall out ok fail,
     run_tasks path_parent w schedule tasks gpu_ids script
     = (out, Ret (ok, fail)) ->
     ok ++ map task_name fail ≡ₚ map task_name tasks /\
     (forall n,
        n ∈ map task_name tasks <-> n ∈ ok \/ n ∈ map task_name fail) /\
     (length ok + length fail = length tasks)%nat /\
     (NoDup (map task_name tasks) ->
      forall n, ~ (n ∈ ok /\ n ∈ map task_name fail))).
Proof.
  split.
  - intros Hg Hs Hr. unfold run_tasks.
    destruct gpu_ids as [|g0 gpu_ids']; [congruence|].
    change (length (g0 :: gpu_ids') =? 0)%nat with false. cbv iota.
    destruct (submit_from_total w (g0 :: gpu_ids') tasks Hg Hs 0%nat)
      as [futs Hf].
    rewrite Hf. apply collect_total.
    rewrite (as_completed_perm schedule futs).
    apply Forall_forall. intros f Hin.
    destruct (submit_from_origin _ _ _ _ _ Hf Hin)
      as (i & t & g & sp & H1 & H2 & H3 & ->).
    simpl. now apply Hr.
  - intros out ok fail H. apply run_tasks_console in H as (H1 & H2 & H3 & _).
    assert (Hp : ok ++ map task_name fail ≡ₚ map task_name tasks).
    { rewrite H1, H2, status_names_split. exact H3. }
    split; [exact Hp|]. split; [|split].
    + intros n. now rewrite <- Hp, elem_of_app.
    + apply Permutation_length in Hp.
      now rewrite length_app, !length_map in Hp.
    + intros Hn n [Ha Hb]. rewrite <- Hp in Hn.
      apply NoDup_app in Hn as (_ & Hn & _). now apply (Hn n).
Qed.

(** C4. In a round over the tasks [tasks] with the GPU ids [gpu_ids], the
    job at position [i] is run on [gpu_ids[i % len(gpu_ids)]]: this is the
    GPU id given to [run_one], stored in the task tuple of the future and
    written to CUDA_VISIBLE_DEVICES. The GPU field of the submitted task
    tuples plays no part: tasks that differ only there give the same
    futures. *)
Theorem gpu_assignment (w : nat -> os_world) (gpu_ids : list Z)
    (tasks : list task) :
  gpu_ids <> [] -> Forall has_script tasks ->
  exists futs,
    submit_from path_parent w gpu_ids 0 tasks = Ret futs /\
    length futs = length tasks /\
    (forall i t, tasks !! i = Some t ->
       exists g script_path,
         gpu_ids !! Nat.modulo i (length gpu_ids) = Some g /\
         task_cmd t !! 1%nat = Some script_path /\
         futs !! i = Some (submitted path_parent (w i) g script_path t) /\
         child_env (environ (w i)) g !! "CUDA_VISIBLE_DEVICES"
         = Some (str g)) /\
    (forall tasks', map job_of tasks' = map job_of tasks ->
       submit_from path_parent w gpu_ids 0 tasks' = Ret futs).
Proof.
  intros Hg Hs.
  destruct (submit_from_total w gpu_ids tasks Hg Hs 0%nat) as [futs Hf].
  exists futs. split; [exact Hf|].
  split; [now apply submit_from_length in Hf|]. split.
  - intros i t Ht.
    destruct (submit_from_lookup _ _ _ _ _ Hf _ _ Ht)
      as (g & sp & H1 & H2 & H3).
    exists g, sp. repeat split; trivial. apply child_env_visible.
  - intros tasks' H.
    now rewrite (submit_from_job_of w gpu_ids tasks' tasks 0 H).
Qed.

(** C5, as the code has it. A failed descriptor carries the command, the
    name and the log path of the job it comes from, and the GPU id the job
    was given in that round, [gpu_ids[i % len(gpu_ids)]] for its position
    [i]. A round over the failed descriptors runs each with the same
    command, name, log path and working directory; its GPU id is again
    taken by position, [gpu_ids[j % len(gpu_ids)]] for the position [j] in
    the failed list. *)
Theorem failed_descriptor_reuse (w : nat -> os_world) (schedule : list nat)
    (tasks : list task) (gpu_ids : list Z) (script : string)
    (out : list line) (ok : list string) (fail : list task) :
  run_tasks path_parent w schedule tasks gpu_ids script
  = (out, Ret (ok, fail)) ->
  (forall d, d ∈ fail ->
     exists i t,
       tasks !! i = Some t /\
       task_cmd d = task_cmd t /\
       task_name d = task_name t /\
       task_log d = task_log t /\
       gpu_ids !! Nat.modulo i (length gpu_ids) = Some (task_gpu d)) /\
  (forall w', exists futs,
     submit_from path_parent w' gpu_ids 0 fail = Ret futs /\
     forall j d, fail !! j = Some d ->
       exists g script_path,
         gpu_ids !! Nat.modulo j (length gpu_ids) = Some g /\
         task_cmd d !! 1%nat = Some script_path /\
         futs !! j
         = Some (Future
                   (run_one (w' j) (task_cmd d) g (task_log d)
                      (path_parent script_path))
                   (Task (task_cmd d) g (task_name d) (task_log d)))).
Proof.
  intros H. split.
  - intros d Hd.
    destruct (run_tasks_fail_origin _ _ _ _ _ _ _ _ _ H Hd)
      as (i & t & g & sp & ret & H1 & H2 & H3 & -> & _).
    exists i, t. now repeat split.
  - intros w'.
    assert (Hg : gpu_ids <> []) by (now apply run_tasks_ret in H).
    assert (Hs : Forall has_script fail).
    { apply Forall_forall. intros d Hd.
      destruct (run_tasks_fail_origin _ _ _ _ _ _ _ _ _ H Hd)
        as (i & t & g & sp & ret & _ & _ & H3 & -> & _).
      now exists sp. }
    destruct (submit_from_total w' gpu_ids fail Hg Hs 0%nat) as [futs Hf].
    exists futs. split; [exact Hf|]. intros j d Hj.
    destruct (submit_from_lookup _ _ _ _ _ Hf _ _ Hj)
      as (g & sp & H1 & H2 & H3).
    exists g, sp. now repeat split.
Qed.

Lemma attempts_of_NoDup (n : string) (out : list line) :
  NoDup (status_names out) -> n ∈ status_names out ->
  attempts_of n out = 1%nat.
Proof.
  intros Hn Hin. apply NoDup_ListNoDup in Hn. apply list_elem_of_In in Hin.
  unfold attempts_of.
  now apply (proj1 (NoDup_count_occ' string_dec (status_names out)) Hn).
Qed.

(** A round over jobs with pairwise distinct names. *)
Lemma round_names (w : nat -> os_world) (schedule : list nat)
    (tasks : list task) (gpu_ids : list Z) (script : string)
    (out : list line) (ok : list string) (fail : list task) :
  run_tasks path_parent w schedule tasks gpu_ids script
  = (out, Ret (ok, fail)) ->
  NoDup (map task_name tasks) ->
  NoDup (status_names out) /\
  NoDup (map task_name fail) /\
  (forall n, n ∈ status_names out <-> n ∈ map task_name tasks) /\
  (forall n, n ∈ map task_name fail ->
     n ∈ map task_name tasks /\ n ∉ ok_names out) /\
  (forall n, n ∈ map task_name tasks -> n ∉ ok_names out ->
     n ∈ map task_name fail).
Proof.
  intros H Hn. apply run_tasks_console in H as (H1 & H2 & H3 & _).
  assert (Hs : NoDup (status_names out)) by (now rewrite H3).
  pose proof Hs as Hs'. rewrite <- status_names_split in Hs'.
  apply NoDup_app in Hs' as (_ & Hd & Hf).
  split; [exact Hs|]. split; [now rewrite H2|].
  split; [intros n; now rewrite H3|]. split.
  - intros n Hin. rewrite H2 in Hin. split.
    + rewrite <- H3, <- status_names_split. apply elem_of_app. now right.
    + intros Hc. now apply (Hd n).
  - intros n Hin Hno. rewrite <- H3, <- status_names_split in Hin.
    apply elem_of_app in Hin as [?|?]; [contradiction|]. now rewrite H2.
Qed.

End RoundFacts.

(** ** The retry loop *)

Section DriverFacts.

Variable path_parent : string -> string.
Variable W : Z -> nat -> os_world.
Variable schedules : Z -> list nat.
Variable gpu_ids : list Z.
Variable script : string.
Variable max_retries : Z.

Local Abbreviation loop := (retry_loop path_parent W schedules).
Local Abbreviation round k tasks :=
  (run_tasks path_parent (W k) (schedules k) tasks gpu_ids script).

Lemma truthy_false {A : Type} (l : list A) : truthy l = false <-> l = [].
Proof. destruct l; simpl; split; congruence. Qed.

(** The two ways in which one turn of the loop ends with a value. *)
Lemma retry_loop_inv (fuel : nat) (attempts : Z) (ok : list string)
    (fail : list task) (out : list line) (ok' : list string)
    (fail' : list task) (attempts' : Z) :
  loop (S fuel) gpu_ids script max_retries attempts ok fail
  = Some (out, Ret (ok', fail', attempts')) ->
  ((fail = [] \/ max_retries <= attempts) /\
   out = [] /\ ok' = ok /\ fail' = fail /\ attempts' = attempts) \/
  (fail <> [] /\ attempts < max_retries /\
   exists out_r ok2 fail2 out_rest,
     round (attempts + 1) fail = (out_r, Ret (ok2, fail2)) /\
     loop fuel gpu_ids script max_retries (attempts + 1) (ok ++ ok2) fail2
     = Some (out_rest, Ret (ok', fail', attempts')) /\
     out = RetryLine (attempts + 1) (length fail) :: out_r
           ++ RoundLine (attempts + 1 + 1) (length ok2) (length fail2)
           :: out_rest).
Proof.
  simpl. destruct (truthy fail) eqn:Et; simpl.
  - destruct (Z.ltb_spec attempts max_retries) as [Hlt|Hge].
    + intros H. right. split; [now destruct fail|]. split; [exact Hlt|].
      destruct (round (attempts + 1) fail) as [out_r [[ok2 fail2]|e]] eqn:Er;
        [|discriminate].
      destruct (loop fuel gpu_ids script max_retries (attempts + 1)
                  (ok ++ ok2) fail2) as [[out_rest r]|] eqn:El; [|discriminate].
      unfold printed in H. simpl in H. inversion H; subst.
      exists out_r, ok2, fail2, out_rest. split; [reflexivity|].
      split; [exact El|]. now rewrite <- app_assoc.
    + intros H. inversion H; subst. left. auto.
  - intros H. inversion H; subst. left. apply truthy_false in Et. auto.
Qed.

(** More fuel does not change a result. *)
Lemma retry_loop_mono (fuel : nat) :
  forall (attempts : Z) (ok : list string) (fail : list task) r,
  loop fuel gpu_ids script max_retries attempts ok fail = Some r ->
  loop (S fuel) gpu_ids script max_retries attempts ok fail = Some r.
Proof.
  induction fuel as [|fuel IH]; intros attempts ok fail r H; [discriminate|].
  remember (S fuel) as fuel1. simpl. subst fuel1. simpl in H.
  destruct (truthy fail && (attempts <? max_retries)); [|exact H].
  destruct (round (attempts + 1) fail) as [out_r [[ok2 fail2]|e]]; [|exact H].
  destruct (loop fuel gpu_ids script max_retries (attempts + 1) (ok ++ ok2)
              fail2) as [r'|] eqn:E; [|discriminate].
  now rewrite (IH _ _ _ _ E).
Qed.

Lemma retry_loop_more_fuel (fuel fuel' : nat) (attempts : Z)
    (ok : list string) (fail : list task) r :
  (fuel <= fuel')%nat ->
  loop fuel gpu_ids script max_retries attempts ok fail = Some r ->
  loop fuel' gpu_ids script max_retries attempts ok fail = Some r.
Proof.
  induction 1 as [|fuel' _ IH]; intros H; [exact H|].
  apply retry_loop_mono. now apply IH.
Qed.

(** The loop ends within [max_retries - attempts] turns. *)
Lemma retry_loop_terminates (fuel : nat) :
  forall (attempts : Z) (ok : list string) (fail : list task),
  (Z.to_nat (max_retries - attempts) < fuel)%nat ->
  exists out r,
    loop fuel gpu_ids script max_retries attempts ok fail = Some (out, r) /\
    (length (retries out) <= Z.to_nat (max_retries - attempts))%nat.
Proof.
  induction fuel as [|fuel IH]; intros attempts ok fail Hf; [lia|].
  simpl. destruct (truthy fail); simpl.
  - destruct (Z.ltb_spec attempts max_retries) as [Hlt|Hge].
    + destruct (round (attempts + 1) fail) as [out_r [[ok2 fail2]|e]] eqn:Er.
      * destruct (IH (attempts + 1) (ok ++ ok2) fail2) as (o & r & -> & Hn);
          [lia|].
        apply run_tasks_console in Er as (_ & _ & _ & Hr).
        simpl. unfold printed. simpl. eexists _, _. split; [reflexivity|].
        change (retries (RetryLine (attempts + 1) (length fail) :: ?l))
          with ((attempts + 1) :: retries l).
        rewrite !retries_app, Hr. simpl. lia.
      * eexists _, _. split; [reflexivity|].
        pose proof (run_tasks_retries path_parent (W (attempts + 1))
                      (schedules (attempts + 1)) fail gpu_ids script) as Hr.
        rewrite Er in Hr. simpl in Hr.
        change (retries (RetryLine (attempts + 1) (length fail) :: out_r))
          with ((attempts + 1) :: retries out_r).
        rewrite Hr. simpl. lia.
    + eexists _, _. split; [reflexivity|]. simpl. lia.
  - eexists _, _. split; [reflexivity|]. simpl. lia.
Qed.

Lemma console_turn (r : Z) (k : nat) (out_r : list line) (q : Z)
    (a b : nat) (out_rest : list line) :
  let out := RetryLine r k :: out_r ++ RoundLine q a b :: out_rest in
  status_names out = status_names out_r ++ status_names out_rest /\
  ok_names out = ok_names out_r ++ ok_names out_rest /\
  retries out = r :: retries out_r ++ retries out_rest.
Proof.
  intros out. unfold out, status_names, ok_names, retries. simpl.
  now rewrite !flat_map_app.
Qed.

(** The value of the loop, whatever the names. *)
Lemma retry_loop_basic (fuel : nat) :
  forall (attempts : Z) (ok : list string) (fail : list task)
         (out : list line) (ok' : list string) (fail' : list task)
         (attempts' : Z),
  loop fuel gpu_ids script max_retries attempts ok fail
  = Some (out, Ret (ok', fail', attempts')) ->
  ok' = ok ++ ok_names out /\
  attempts <= attempts' /\
  (attempts' <= max_retries \/ attempts' = attempts) /\
  length (retries out) = Z.to_nat (attempts' - attempts) /\
  (fail' = [] \/ max_retries <= attempts').
Proof.
  induction fuel as [|fuel IH];
    intros attempts ok fail out ok' fail' attempts' H; [discriminate|].
  apply retry_loop_inv in H
    as [(Hex & -> & -> & -> & ->)
       |(Hne & Hlt & out_r & ok2 & fail2 & out_rest & Er & El & ->)].
  - rewrite app_nil_r, Z.sub_diag. repeat split; auto; lia.
  - apply IH in El as (H1 & H2 & H3 & H4 & H5).
    apply run_tasks_console in Er as (Hok & _ & _ & Hr).
    destruct (console_turn (attempts + 1) (length fail) out_r
                (attempts + 1 + 1) (length ok2) (length fail2) out_rest)
      as (_ & Eo & Et).
    rewrite Eo, Et, Hr, H1, Hok, <- app_assoc. simpl. rewrite H4.
    repeat split; auto; lia.
Qed.

(** The names on the console of the loop, when the failed jobs it starts
    from have pairwise distinct names. *)
Lemma retry_loop_names (fuel : nat) :
  forall (attempts : Z) (ok : list string) (fail : list task)
         (out : list line) (ok' : list string) (fail' : list task)
         (attempts' : Z),
  NoDup (map task_name fail) ->
  loop fuel gpu_ids script max_retries attempts ok fail
  = Some (out, Ret (ok', fail', attempts')) ->
  NoDup (map task_name fail') /\
  settled out /\
  (forall n, n ∈ status_names out -> n ∈ map task_name fail) /\
  (forall n, n ∈ map task_name fail' ->
     n ∈ map task_name fail /\ n ∉ ok_names out) /\
  (forall n, n ∈ map task_name fail -> n ∉ ok_names out ->
     n ∈ map task_name fail' /\
     attempts_of n out = Z.to_nat (max_retries - attempts)).
Proof.
  induction fuel as [|fuel IH];
    intros attempts ok fail out ok' fail' attempts' Hn H; [discriminate|].
  apply retry_loop_inv in H
    as [(Hex & -> & -> & -> & ->)
       |(Hne & Hlt & out_r & ok2 & fail2 & out_rest & Er & El & ->)].
  - split; [exact Hn|]. split; [exact I|].
    split; [intros n Hc; now apply elem_of_nil in Hc|].
    split; [intros n Hin; split; [exact Hin|apply not_elem_of_nil]|].
    intros n Hin _. split; [exact Hin|].
    destruct Hex as [->|Hge]; [now apply elem_of_nil in Hin|].
    unfold attempts_of. simpl. lia.
  - destruct (round_names _ _ _ _ _ _ _ _ _ Er Hn) as (R1 & R2 & R3 & R4 & R5).
    destruct (IH _ _ _ _ _ _ _ R2 El) as (I1 & I2 & I3 & I4 & I5).
    destruct (console_turn (attempts + 1) (length fail) out_r
                (attempts + 1 + 1) (length ok2) (length fail2) out_rest)
      as (Es & Eo & _).
    split; [exact I1|]. split; [|split; [|split]].
    + split; [intros n Hc; now apply elem_of_nil in Hc|].
      apply settled_app; [now apply settled_NoDup| |].
      * split; [intros n Hc; now apply elem_of_nil in Hc|exact I2].
      * intros n Hin Hc.
        change (status_names (RoundLine (attempts + 1 + 1) (length ok2)
                                (length fail2) :: out_rest))
          with (status_names out_rest) in Hc.
        apply I3, R4 in Hc. tauto.
    + intros n. rewrite Es, elem_of_app. intros [Hin|Hin].
      * now apply R3.
      * apply I3, R4 in Hin. tauto.
    + intros n Hin. apply I4 in Hin as [Hin Hno]. apply R4 in Hin as [Hin Hno'].
      split; [exact Hin|]. rewrite Eo, elem_of_app. tauto.
    + intros n Hin Hno. rewrite Eo, elem_of_app in Hno.
      assert (Hin2 : n ∈ map task_name fail2) by (apply R5; tauto).
      destruct (I5 n Hin2) as [I5a I5b]; [tauto|]. split; [exact I5a|].
      unfold attempts_of in *. rewrite Es, count_occ_app, I5b.
      fold (attempts_of n out_r).
      rewrite (attempts_of_NoDup n out_r R1) by (now apply R3).
      lia.
Qed.

Local Abbreviation main fuel tasks :=
  (main_rounds path_parent W schedules fuel tasks gpu_ids script max_retries).

Lemma console_main (out1 : list line) (a b : nat) (o : list line)
    (c d : nat) (fail : list task) :
  let out :=
    out1 ++ FirstRoundLine a b :: o ++ DoneLine c d ::
      (if truthy fail then [StillFailingLine (map task_name fail)] else []) in
  status_names out = status_names out1 ++ status_names o /\
  ok_names out = ok_names out1 ++ ok_names o /\
  retries out = retries out1 ++ retries o.
Proof.
  intros out. unfold out, status_names, ok_names, retries.
  rewrite !flat_map_app. simpl. rewrite !flat_map_app. simpl.
  destruct (truthy fail); simpl; now rewrite !app_nil_r.
Qed.

Lemma main_rounds_fuel (fuel : nat) (tasks : list task) :
  (Z.to_nat max_retries < fuel)%nat ->
  main fuel tasks = main (S (Z.to_nat max_retries)) tasks.
Proof.
  intros Hf. unfold main_rounds.
  destruct (round 0 tasks) as [out1 [[ok1 fail1]|e]]; [|reflexivity].
  destruct (retry_loop_terminates (S (Z.to_nat max_retries)) 0 ok1 fail1)
    as (o & r & E & _); [rewrite Z.sub_0_r; lia|].
  rewrite E.
  rewrite (retry_loop_more_fuel (S (Z.to_nat max_retries)) fuel 0 ok1 fail1
             (o, r)); [reflexivity|lia|exact E].
Qed.

(** C3. With a retry budget [max_retries >= 0] the driver ends, with the
    same console and value for any sufficient fuel, after at most
    [max_retries] retry rounds. When it ends normally, it has made
    [attempts <= max_retries] retries and either nothing is left failed or
    the budget is used up; the final succeeded list is the list of the
    names reported OK. When the job names are pairwise distinct: a job that
    is never reported OK is run [max_retries + 1] times and its name is in
    the final failed list; a job reported OK is in the final succeeded
    list, once, is not in the final failed list, and is not run again
    after that report. *)
Theorem retry_driver (fuel : nat) (tasks : list task) :
  0 <= max_retries ->
  (Z.to_nat max_retries < fuel)%nat ->
  exists out r,
    main fuel tasks = Some (out, r) /\
    (forall fuel', (Z.to_nat max_retries < fuel')%nat ->
       main fuel' tasks = Some (out, r)) /\
    (length (retries out) <= Z.to_nat max_retries)%nat /\
    forall ok fail attempts,
      r = Ret (ok, fail, attempts) ->
      0 <= attempts <= max_retries /\
      length (retries out) = Z.to_nat attempts /\
      (fail = [] \/ attempts = max_retries) /\
      ok = ok_names out /\
      (NoDup (map task_name tasks) ->
       settled out /\
       NoDup ok /\
       forall n, n ∈ map task_name tasks ->
         (n ∉ ok_names out ->
          attempts_of n out = (Z.to_nat max_retries + 1)%nat /\
          n ∈ map task_name fail) /\
         (n ∈ ok_names out -> n ∈ ok /\ n ∉ map task_name fail)).
Proof.
  intros HR Hf.
  assert (Hfuel : forall out r, main fuel tasks = Some (out, r) ->
            forall fuel', (Z.to_nat max_retries < fuel')%nat ->
              main fuel' tasks = Some (out, r)).
  { intros out r E fuel' Hf'.
    now rewrite (main_rounds_fuel fuel'), <- (main_rounds_fuel fuel). }
  pose proof (run_tasks_retries path_parent (W 0) (schedules 0) tasks gpu_ids
                script) as Hr1.
  pose proof (fun out r => Hfuel out r) as Hfuel'. clear Hfuel.
  unfold main_rounds in *.
  destruct (round 0 tasks) as [out1 [[ok1 fail1]|e]] eqn:E1; simpl in Hr1.
  2:{ exists out1, (Raise e). split; [reflexivity|].
      split; [now apply Hfuel'|]. split; [rewrite Hr1; simpl; lia|].
      discriminate. }
  destruct (retry_loop_terminates fuel 0 ok1 fail1) as (o & r & El & Hlen);
    [rewrite Z.sub_0_r; lia|].
  rewrite Z.sub_0_r in Hlen. rewrite El in *.
  destruct r as [[[ok fail] attempts]|e].
  2:{ eexists _, _. split; [reflexivity|]. split; [now apply Hfuel'|].
      split; [|discriminate].
      rewrite retries_app, Hr1. simpl. exact Hlen. }
  destruct (console_main out1 (length ok1) (length fail1) o (length ok)
              (length fail) fail) as (Es & Eo & Et).
  eexists _, _. split; [reflexivity|]. split; [now apply Hfuel'|].
  rewrite Et, Hr1. simpl. split; [exact Hlen|].
  intros ok0 fail0 attempts0 Heq. inversion Heq; subst ok0 fail0 attempts0.
  destruct (retry_loop_basic _ _ _ _ _ _ _ _ El) as (B1 & B2 & B3 & B4 & B5).
  rewrite Z.sub_0_r in B4.
  pose proof (run_tasks_console _ _ _ _ _ _ _ _ _ E1) as (C1 & _).
  split; [lia|]. split; [exact B4|].
  split; [destruct B5; [now left|right; lia]|].
  split; [now rewrite Eo, B1, C1|].
  intros Hn.
  destruct (round_names _ _ _ _ _ _ _ _ _ E1 Hn) as (R1 & R2 & R3 & R4 & R5).
  destruct (retry_loop_names _ _ _ _ _ _ _ _ R2 El) as (I1 & I2 & I3 & I4 & I5).
  assert (Hs : settled
                 (out1 ++ FirstRoundLine (length ok1) (length fail1) :: o ++
                  DoneLine (length ok) (length fail) ::
                  (if truthy fail then [StillFailingLine (map task_name fail)]
                   else []))).
  { apply settled_app; [now apply settled_NoDup| |].
    - split; [intros n Hc; now apply elem_of_nil in Hc|].
      apply settled_app; [exact I2| |].
      + split; [intros n Hc; now apply elem_of_nil in Hc|].
        destruct (truthy fail); simpl; [split; [|exact I]|exact I].
        intros n Hc. now apply elem_of_nil in Hc.
      + intros n _. destruct (truthy fail); simpl; apply not_elem_of_nil.
    - intros n Hin Hc.
      assert (Hc' : n ∈ status_names o).
      { revert Hc. unfold status_names. simpl. rewrite flat_map_app. simpl.
        destruct (truthy fail); simpl; now rewrite app_nil_r. }
      apply I3, R4 in Hc'. tauto. }
  split; [exact Hs|].
  split; [rewrite B1, C1, <- Eo; now apply settled_ok_NoDup|].
  intros n Hin. rewrite Eo, elem_of_app. split.
  - intros Hno.
    assert (Hin1 : n ∈ map task_name fail1) by (apply R5; tauto).
    destruct (I5 n Hin1) as [I5a I5b]; [tauto|]. split; [|exact I5a].
    unfold attempts_of in *. rewrite Es, count_occ_app, I5b, Z.sub_0_r.
    fold (attempts_of n out1).
    rewrite (attempts_of_NoDup n out1 R1) by (now apply R3). lia.
  - intros Hok. split.
    + rewrite B1, C1, elem_of_app. exact Hok.
    + intros Hc. apply I4 in Hc as [Hc Hno]. apply R4 in Hc as [_ Hno1]. tauto.
Qed.

(** C8. When the child cannot be started, [run_one] raises what [Popen]
    raised: it returns no code, so the job gets no verdict. A round in
    which a call of [run_one] raises does not return a result: [run_tasks]
    raises the exception of one of its calls. [main] does not catch it:
    whether it happens in the first round or in a retry round, the run ends
    there with that exception, and no later retry round is started. *)
Theorem spawn_failure_crashes :
  (forall w cmd g log_file cwd e,
     log_writable w log_file ->
     popen w cmd (child_env (environ w) g) cwd = PopenRaises e ->
     run_one w cmd g log_file cwd = Raise e) /\
  (forall w schedule tasks i t g script_path e,
     Forall has_script tasks ->
     tasks !! i = Some t ->
     gpu_ids !! Nat.modulo i (length gpu_ids) = Some g ->
     task_cmd t !! 1%nat = Some script_path ->
     run_one (w i) (task_cmd t) g (task_log t) (path_parent script_path)
     = Raise e ->
     exists out e' i' t' g' script_path',
       run_tasks path_parent w schedule tasks gpu_ids script
       = (out, Raise e') /\
       tasks !! i' = Some t' /\
       gpu_ids !! Nat.modulo i' (length gpu_ids) = Some g' /\
       task_cmd t' !! 1%nat = Some script_path' /\
       run_one (w i') (task_cmd t') g' (task_log t')
         (path_parent script_path') = Raise e') /\
  (forall fuel tasks out e,
     round 0 tasks = (out, Raise e) ->
     main fuel tasks = Some (out, Raise e) /\ retries out = []) /\
  (forall fuel attempts ok fail out e,
     fail <> [] -> attempts < max_retries ->
     round (attempts + 1) fail = (out, Raise e) ->
     loop (S fuel) gpu_ids script max_retries attempts ok fail
     = Some (RetryLine (attempts + 1) (length fail) :: out, Raise e) /\
     retries out = []).
Proof.
  split; [|split; [|split]].
  - intros w cmd g log_file cwd e Hlog Hp. unfold run_one, run_child.
    destruct log_file as [path|]; simpl in *.
    + now rewrite Hlog, Hp.
    + now rewrite Hp.
  - intros w schedule tasks i t g sp e Hs Ht Hg Hc Hr.
    assert (Hne : gpu_ids <> []) by (intros ->; discriminate).
    destruct (submit_from_total path_parent w gpu_ids tasks Hne Hs 0%nat)
      as [futs Hf].
    destruct (submit_from_lookup _ _ _ _ _ _ Hf _ _ Ht)
      as (g1 & sp1 & L1 & L2 & L3).
    simpl in L1, L3. rewrite Hg in L1. rewrite Hc in L2.
    inversion L1; subst g1. inversion L2; subst sp1.
    destruct (collect_raise (as_completed schedule futs))
      with (ok := @nil string) (fail := @nil task)
      as (out & e' & f & Ec & Hin & He).
    { apply Exists_exists. exists (submitted path_parent (w i) g sp t).
      split; [|now exists e].
      rewrite (as_completed_perm schedule futs).
      apply list_elem_of_lookup. now exists i. }
    rewrite (as_completed_perm schedule futs) in Hin.
    destruct (submit_from_origin _ _ _ _ _ _ Hf Hin)
      as (i' & t' & g' & sp' & O1 & O2 & O3 & ->).
    exists out, e', i', t', g', sp'. split; [|now repeat split].
    unfold run_tasks. destruct gpu_ids; [congruence|]. simpl length.
    change (S (length l) =? 0)%nat with false. cbv iota.
    rewrite Hf. exact Ec.
  - intros fuel tasks out e Er. split.
    + unfold main_rounds. now rewrite Er.
    + pose proof (run_tasks_retries path_parent (W 0) (schedules 0) tasks
                    gpu_ids script) as H.
      now rewrite Er in H.
  - intros fuel attempts ok fail out e Hne Hlt Er. split.
    + simpl. destruct fail; [congruence|]. simpl.
      destruct (Z.ltb_spec attempts max_retries); [|lia].
      now rewrite Er.
    + pose proof (run_tasks_retries path_parent (W (attempts + 1))
                    (schedules (attempts + 1)) fail gpu_ids script) as H.
      now rewrite Er in H.
Qed.

End DriverFacts.

(** ** The properties on the example worlds *)

Lemma demo_has_script : Forall has_script demo_tasks.
Proof. repeat constructor; eexists; reflexivity. Qed.

Lemma demo_names_NoDup : NoDup (map task_name demo_tasks).
Proof. apply (bool_decide_unpack _). vm_compute. exact I. Qed.

Lemma round_partition_witness :
  exists out ok fail,
    run_tasks demo_parent (fun _ => demo_world) [1%nat] demo_tasks [0; 1; 2]
      demo_script = (out, Ret (ok, fail)) /\
    ok ++ map task_name fail ≡ₚ map task_name demo_tasks /\
    ~ ("B" ∈ ok /\ "B" ∈ map task_name fail).
Proof.
  destruct (round_partition demo_parent (fun _ => demo_world) [1%nat]
              demo_tasks [0; 1; 2] demo_script) as [Hret Hpart].
  destruct Hret as (out & ok & fail & E).
  - discriminate.
  - exact demo_has_script.
  - intros [|[|[|[|i]]]] t g sp Ht Hg Hs; simpl in Ht, Hg;
      inversion Ht; subst t; inversion Hg; subst g; eexists; reflexivity.
  - exists out, ok, fail. split; [exact E|].
    destruct (Hpart out ok fail E) as (P1 & _ & _ & P4).
    split; [exact P1|]. exact (P4 demo_names_NoDup "B").
Defined.

Lemma gpu_assignment_witness :
  exists futs,
    submit_from demo_parent (fun _ => demo_world) [0; 1] 0 demo_tasks
    = Ret futs /\
    futs !! 3%nat
    = Some (submitted demo_parent demo_world 1 demo_script (demo_task "E")).
Proof.
  destruct (gpu_assignment demo_parent (fun _ => demo_world) [0; 1] demo_tasks)
    as (futs & H1 & _ & H3 & _).
  - discriminate.
  - exact demo_has_script.
  - exists futs. split; [exact H1|].
    destruct (H3 3%nat (demo_task "E") eq_refl) as (g & sp & G1 & G2 & G3 & _).
    simpl in G1, G2. inversion G1; subst g. inversion G2; subst sp. exact G3.
Defined.

Lemma failed_descriptor_reuse_witness :
  exists i t,
    demo_tasks !! i = Some t /\
    task_cmd (demo_task "B") = task_cmd t /\
    "B" = task_name t /\
    None = task_log t /\
    [0; 1; 2] !! Nat.modulo i 3 = Some 1.
Proof.
  refine (proj1
            (failed_descriptor_reuse demo_parent (fun _ => demo_world) []
               demo_tasks [0; 1; 2] demo_script
               [OkLine 0 "A"; FailLine 1 "B" 1; FailLine 2 "C" 1; OkLine 0 "E"]
               ["A"; "E"]
               [Task (task_cmd (demo_task "B")) 1 "B" None;
                Task (task_cmd (demo_task "C")) 2 "C" None] _)
            (Task (task_cmd (demo_task "B")) 1 "B" None) _).
  - vm_compute. reflexivity.
  - apply list_elem_of_here.
Defined.

(** The GPU id is not kept across rounds: with two GPUs, job A succeeding
    at position 0 and job B failing at position 1, the failed descriptor of
    B carries GPU 1, and the retry round runs B, the same command and log
    path, with GPU 0. *)
Lemma retry_same_gpu_counterexample :
  exists d f,
    run_tasks demo_parent (fun _ => demo_world) []
      [demo_task "A"; demo_task "B"] [0; 1] demo_script
    = ([OkLine 0 "A"; FailLine 1 "B" 1], Ret (["A"], [d])) /\
    submit_from demo_parent (fun _ => demo_world) [0; 1] 0 [d] = Ret [f] /\
    fut_result f
    = run_one demo_world (task_cmd d) 0 (task_log d) "/opt/openfold" /\
    task_cmd (fut_task f) = task_cmd d /\
    task_log (fut_task f) = task_log d /\
    task_gpu d = 1 /\
    task_gpu (fut_task f) = 0 /\
    task_gpu (fut_task f) <> task_gpu d /\
    main_rounds demo_parent (fun _ _ => demo_world) (fun _ => []) 2
      [demo_task "A"; demo_task "B"] [0; 1] demo_script 1
    = Some ([OkLine 0 "A"; FailLine 1 "B" 1; FirstRoundLine 1 1;
             RetryLine 1 1; FailLine 0 "B" 1; RoundLine 2 0 1;
             DoneLine 1 1; StillFailingLine ["B"]],
            Ret (["A"], [Task (task_cmd d) 0 "B" None], 1)).
Proof.
  exists (Task (task_cmd (demo_task "B")) 1 "B" None).
  exists (submitted demo_parent demo_world 0 demo_script
            (Task (task_cmd (demo_task "B")) 1 "B" None)).
  repeat split; try reflexivity. discriminate.
Qed.

Lemma retry_driver_witness :
  exists out ok fail,
    main_rounds demo_parent (fun _ _ => demo_world) (fun _ => [2%nat]) 3
      demo_tasks [0; 1; 2] demo_script 2
    = Some (out, Ret (ok, fail, 2)) /\
    length (retries out) = 2%nat /\
    attempts_of "B" out = 3%nat /\
    "B" ∈ map task_name fail /\
    "A" ∈ ok /\
    attempts_of "A" out = 1%nat.
Proof.
  destruct (retry_driver demo_parent (fun _ _ => demo_world)
              (fun _ => [2%nat]) [0; 1; 2] demo_script 2 3 demo_tasks)
    as (out & r & E & _ & _ & H).
  - lia.
  - simpl. lia.
  - vm_compute in E. injection E as <- <-.
    destruct (H _ _ _ eq_refl) as (_ & H2 & _ & H4 & H5).
    destruct (H5 demo_names_NoDup) as (_ & _ & H6).
    destruct (H6 "B") as [HB _];
      [apply (bool_decide_unpack _); vm_compute; exact I|].
    destruct HB as [HB1 HB2];
      [apply (bool_decide_unpack _); vm_compute; exact I|].
    destruct (H6 "A") as [_ HA];
      [apply (bool_decide_unpack _); vm_compute; exact I|].
    destruct HA as [HA1 _];
      [apply (bool_decide_unpack _); vm_compute; exact I|].
    eexists _, _, _. split; [reflexivity|].
    split; [exact H2|]. split; [exact HB1|]. split; [exact HB2|].
    split; [exact HA1|]. reflexivity.
Defined.

Lemma spawn_failure_crashes_witness :
  main_rounds demo_parent (fun _ _ => demo_world) (fun _ => []) 3
    [demo_task "A"; demo_task "D"; demo_task "B"] [0; 1] demo_script 2
  = Some ([OkLine 0 "A"], Raise (OSError "No such file or directory")) /\
  retries [OkLine 0 "A"] = [].
Proof.
  apply (proj1 (proj2 (proj2
           (spawn_failure_crashes demo_parent (fun _ _ => demo_world)
              (fun _ => []) [0; 1] demo_script 2)))).
  vm_compute. reflexivity.
Defined.

(** The two scenarios of the specification. *)

Example five_jobs_two_gpus :
  main_rounds demo_parent (fun _ _ => demo_world) (fun _ => [3%nat; 1%nat]) 2
    [demo_task "A"; demo_task "E"; demo_task "F"; demo_task "G"; demo_task "H"]
    [0; 1] demo_script 1
  = Some ([OkLine 1 "G"; OkLine 1 "E"; OkLine 0 "A"; OkLine 0 "F"; OkLine 0 "H";
           FirstRoundLine 5 0; DoneLine 5 0],
          Ret (["G"; "E"; "A"; "F"; "H"], [], 0)).
Proof. vm_compute. reflexivity. Qed.

Example three_jobs_one_gpu :
  main_rounds demo_parent (fun _ _ => demo_world) (fun _ => []) 2
    [demo_task "A"; demo_task "B"; demo_task "E"] [0] demo_script 1
  = Some ([OkLine 0 "A"; FailLine 0 "B" 1; OkLine 0 "E"; FirstRoundLine 2 1;
           RetryLine 1 1; FailLine 0 "B" 1; RoundLine 2 0 1;
           DoneLine 2 1; StillFailingLine ["B"]],
          Ret (["A"; "E"], [Task (task_cmd (demo_task "B")) 0 "B" None], 1)).
Proof. vm_compute. reflexivity. Qed.

Example no_gpus :
  run_tasks demo_parent (fun _ => demo_world) [] demo_tasks [] demo_script
  = ([], Raise ValueError).
Proof. reflexivity. Qed.

Example str_examples : str 3 = "3" /\ str 12 = "12" /\ str (-1) = "-1".
Proof. vm_compute. repeat split. Qed.

Example build_cmd_script (py script fasta_dir mmcif_dir out_dir aln_dir
    config_preset : string) (skip_relax : bool) :
  build_cmd py script fasta_dir mmcif_dir out_dir aln_dir config_preset
    skip_relax !! 1%nat = Some script.
Proof. now destruct skip_relax. Qed.

(** * Further properties *)

(** ** The marker scan, lines 47-70 *)

Lemma substring_trans (a b c : string) :
  substring a b -> substring b c -> substring a c.
Proof.
  intros (p1 & q1 & ->) (p2 & q2 & ->).
  exists (p2 +:+ p1), (q1 +:+ q2). now rewrite !append_assoc.
Qed.

Lemma substring_context (m text pre post : string) :
  substring m text -> substring m (pre +:+ text +:+ post).
Proof.
  intros H. apply (substring_trans m text); [exact H|]. now exists pre, post.
Qed.






(** X2. The three markers that name an error class add nothing to the scan:
    each ends in "Error:", which is a marker itself. *)
Theorem marker_list_redundant (text : string) :
  any_in err_markers text = any_in core_markers text.
Proof.
  apply eq_true_iff_eq. rewrite !any_in_iff. split.
  - intros (m & Hm & Hs).
    assert (He : forall p, substring "Error:" (p +:+ "Error:"))
      by (intros p; now exists p, "").
    unfold err_markers in Hm. simpl in Hm.
    destruct Hm as [<-|[<-|[<-|[<-|[<-|[<-|[<-|[]]]]]]]].
    + eexists. split; [|exact Hs]. simpl. tauto.
    + exists "Error:". split; [simpl; tauto|].
      exact (substring_trans _ _ _ (He "Value") Hs).
    + exists "Error:". split; [simpl; tauto|].
      exact (substring_trans _ _ _ (He "Runtime") Hs).
    + exists "Error:". split; [simpl; tauto|].
      exact (substring_trans _ _ _ (He "Assertion") Hs).
    + eexists. split; [|exact Hs]. simpl. tauto.
    + eexists. split; [|exact Hs]. simpl. tauto.
    + eexists. split; [|exact Hs]. simpl. tauto.
  - intros (m & Hm & Hs). exists m. split; [|exact Hs].
    unfold core_markers in Hm. unfold err_markers. simpl in *. tauto.
Qed.

(** X3. Output around a text that fails the scan does not make it pass: when
    the verdict for a text is a failure, so is the verdict for any text
    that contains it. *)
Theorem failure_survives_context (ret : Z) (text pre post : string) :
  classify ret text <> 0 ->
  classify ret (pre +:+ text +:+ post) <> 0.
Proof.
  intros H Hc. apply H. apply classify_zero_iff in Hc as [-> Hn].
  apply classify_zero_iff. split; [reflexivity|].
  intros m Hm Hs. apply (Hn m Hm). now apply substring_context.
Qed.

Lemma failure_survives_context_witness :
  classify 0 ("step 7; " +:+ "RuntimeError: CUDA error" +:+ "; bye") <> 0.
Proof.
  apply (failure_survives_context 0 "RuntimeError: CUDA error").
  vm_compute. discriminate.
Defined.

(** ** The child's environment, lines 27-29 *)

(** X4. Pinning again replaces the earlier pinning: the environment built from
    an environment that [run_one] built for another GPU is the one built
    from the original. The child's variables are those of the caller and
    the two CUDA variables. *)
Theorem child_env_repin (environ : gmap string string) (g1 g2 : Z) :
  child_env (child_env environ g1) g2 = child_env environ g2 /\
  dom (child_env environ g2)
  = {[ "CUDA_VISIBLE_DEVICES"; "CUDA_DEVICE_ORDER" ]} ∪ dom environ.
Proof.
  split.
  - apply map_eq. intros k.
    destruct (decide (k = "CUDA_VISIBLE_DEVICES")) as [->|H1].
    { now rewrite !child_env_visible. }
    destruct (decide (k = "CUDA_DEVICE_ORDER")) as [->|H2].
    { rewrite !child_env_order. now destruct (environ !! _). }
    now rewrite !child_env_other.
  - apply set_eq. intros k. rewrite elem_of_union, !elem_of_dom.
    destruct (decide (k = "CUDA_VISIBLE_DEVICES")) as [->|H1].
    { rewrite child_env_visible. split; [intros _; left; set_solver|eauto]. }
    destruct (decide (k = "CUDA_DEVICE_ORDER")) as [->|H2].
    { rewrite child_env_order. split; [intros _; left; set_solver|eauto]. }
    rewrite child_env_other by assumption. split; [now right|].
    intros [Hc|Hc]; [|exact Hc].
    apply elem_of_union in Hc as [Hc|Hc];
      apply elem_of_singleton in Hc; congruence.
Qed.

(** X5. Two different GPU ids are never written to CUDA_VISIBLE_DEVICES as the
    same value. *)
Theorem gpu_pinning_distinct (e1 e2 : gmap string string) (g1 g2 : Z) :
  g1 <> g2 ->
  child_env e1 g1 !! "CUDA_VISIBLE_DEVICES"
  <> child_env e2 g2 !! "CUDA_VISIBLE_DEVICES".
Proof.
  intros H. rewrite !child_env_visible. intros E. apply H.
  inversion E as [E']. now apply (inj pretty) in E'.
Qed.

Lemma gpu_pinning_distinct_witness :
  child_env (environ demo_world) 1 !! "CUDA_VISIBLE_DEVICES"
  <> child_env (environ (logged_world "")) 10 !! "CUDA_VISIBLE_DEVICES".
Proof. apply gpu_pinning_distinct. discriminate. Defined.

(** ** One round, lines 75-100 *)

Lemma flat_map_perm {A B : Type} (f : A -> list B) (l1 l2 : list A) :
  l1 ≡ₚ l2 -> flat_map f l1 ≡ₚ flat_map f l2.
Proof.
  induction 1 as [|x l1 l2 _ IH|x y l|l1 l2 l3 _ IH1 _ IH2]; simpl.
  - reflexivity.
  - now rewrite IH.
  - rewrite !app_assoc. apply Permutation_app_tail, Permutation_app_comm.
  - now rewrite IH1.
Qed.

Lemma collect_closed (done : list future) :
  Forall (fun f => exists ret, fut_result f = Ret ret) done ->
  forall ok fail,
    collect done ok fail
    = (flat_map status_line done,
       Ret (ok ++ flat_map succeeded_of done,
            fail ++ flat_map failed_of done)).
Proof.
  induction 1 as [|f done [ret Hf] _ IH]; intros ok fail; simpl.
  - now rewrite !app_nil_r.
  - unfold status_line, succeeded_of, failed_of. rewrite Hf.
    destruct (fut_task f) as [cmd g name log] eqn:Et. simpl.
    destruct (Z.eqb_spec ret 0) as [->|Hne].
    + rewrite IH. unfold printed. simpl. now rewrite <- app_assoc.
    + rewrite IH. unfold printed. simpl.
      destruct ret; [congruence| |]; now rewrite <- app_assoc.
Qed.

Lemma collect_ret_all (done : list future) :
  forall ok fail out v,
    collect done ok fail = (out, Ret v) ->
    Forall (fun f => exists ret, fut_result f = Ret ret) done.
Proof.
  induction done as [|f done IH]; intros ok fail out v H; [constructor|].
  simpl in H. destruct (fut_result f) as [ret|e] eqn:Er; [|discriminate].
  constructor; [now exists ret|].
  destruct (fut_task f) as [cmd g name log].
  destruct (ret =? 0).
  - destruct (collect done (ok ++ [name]) fail) as [o r] eqn:E.
    unfold printed in H. simpl in H. inversion H; subst. eapply IH, E.
  - destruct (collect done ok (fail ++ [Task cmd g name log])) as [o r] eqn:E.
    unfold printed in H. simpl in H. inversion H; subst. eapply IH, E.
Qed.

Lemma rounds_of_gpus_length (n : nat) (gpu_ids : list Z) :
  length (rounds_of_gpus n gpu_ids) = (n * length gpu_ids)%nat.
Proof.
  induction n as [|n IH]; simpl; [reflexivity|]. rewrite length_app. lia.
Qed.

Lemma rounds_of_gpus_lookup (n : nat) (gpu_ids : list Z) :
  forall i, (i < n * length gpu_ids)%nat ->
  rounds_of_gpus n gpu_ids !! i = gpu_ids !! Nat.modulo i (length gpu_ids).
Proof.
  induction n as [|n IH]; intros i Hi; simpl in *; [lia|].
  destruct (Nat.lt_ge_cases i (length gpu_ids)) as [Hlt|Hge].
  - rewrite lookup_app_l by exact Hlt. now rewrite Nat.mod_small.
  - rewrite lookup_app_r by exact Hge. rewrite IH by lia.
    replace i with ((i - length gpu_ids) + 1 * length gpu_ids)%nat at 2
      by lia.
    now rewrite Nat.Div0.mod_add.
Qed.

Section MoreRoundFacts.

Variable path_parent : string -> string.

Lemma submit_from_has_script (w : nat -> os_world) (gpu_ids : list Z)
    (tasks : list task) :
  forall i futs,
    submit_from path_parent w gpu_ids i tasks = Ret futs ->
    Forall has_script tasks.
Proof.
  induction tasks as [|t tasks IH]; intros i futs H; [constructor|].
  simpl in H. destruct t as [cmd g0 name log].
  destruct (gpu_ids !! Nat.modulo i (length gpu_ids)); [|discriminate].
  destruct (cmd !! 1%nat) as [sp|] eqn:Es; [|discriminate].
  destruct (submit_from path_parent w gpu_ids (S i) tasks) as [futs'|] eqn:E;
    [|discriminate].
  constructor; [now exists sp|]. eapply IH, E.
Qed.

(** X6. A round returns its two lists exactly when there is a GPU id, every
    command names a script and no call of [run_one] raises; in every other
    case it raises. *)
Theorem run_tasks_returns_iff (w : nat -> os_world) (schedule : list nat)
    (tasks : list task) (gpu_ids : list Z) (script : string) :
  (exists out ok fail,
     run_tasks path_parent w schedule tasks gpu_ids script
     = (out, Ret (ok, fail))) <->
  gpu_ids <> [] /\
  Forall has_script tasks /\
  (forall i t g script_path,
     tasks !! i = Some t ->
     gpu_ids !! Nat.modulo i (length gpu_ids) = Some g ->
     task_cmd t !! 1%nat = Some script_path ->
     exists ret,
       run_one (w i) (task_cmd t) g (task_log t) (path_parent script_path)
       = Ret ret).
Proof.
  split.
  - intros (out & ok & fail & H).
    apply run_tasks_ret in H as (Hg & futs & Hs & Hc).
    split; [exact Hg|]. split; [eapply submit_from_has_script, Hs|].
    intros i t g sp Ht Hgi Hsp.
    destruct (submit_from_lookup _ _ _ _ _ _ Hs _ _ Ht)
      as (g' & sp' & L1 & L2 & L3).
    simpl in L1, L3. rewrite Hgi in L1. rewrite Hsp in L2.
    inversion L1; subst g'. inversion L2; subst sp'.
    apply collect_ret_all in Hc.
    rewrite (as_completed_perm schedule futs) in Hc.
    rewrite Forall_forall in Hc.
    apply (Hc (submitted path_parent (w i) g sp t)).
    apply list_elem_of_lookup. now exists i.
  - intros (Hg & Hs & Hr). unfold run_tasks.
    destruct gpu_ids as [|g0 gpu_ids']; [congruence|].
    change (length (g0 :: gpu_ids') =? 0)%nat with false. cbv iota.
    destruct (submit_from_total path_parent w (g0 :: gpu_ids') tasks Hg Hs
                0%nat) as [futs Hf].
    rewrite Hf. apply collect_total.
    rewrite (as_completed_perm schedule futs).
    apply Forall_forall. intros f Hin.
    destruct (submit_from_origin _ _ _ _ _ _ Hf Hin)
      as (i & t & g & sp & H1 & H2 & H3 & ->).
    simpl. now apply Hr.
Qed.

Lemma run_tasks_closed (w : nat -> os_world) (schedule : list nat)
    (tasks : list task) (gpu_ids : list Z) (script : string)
    (out : list line) (ok : list string) (fail : list task) :
  run_tasks path_parent w schedule tasks gpu_ids script
  = (out, Ret (ok, fail)) ->
  exists futs,
    submit_from path_parent w gpu_ids 0 tasks = Ret futs /\
    Forall (fun f => exists ret, fut_result f = Ret ret) futs /\
    out = flat_map status_line (as_completed schedule futs) /\
    ok = flat_map succeeded_of (as_completed schedule futs) /\
    fail = flat_map failed_of (as_completed schedule futs).
Proof.
  intros H. apply run_tasks_ret in H as (Hg & futs & Hs & Hc).
  exists futs. split; [exact Hs|].
  pose proof (collect_ret_all _ _ _ _ _ Hc) as Hall.
  rewrite (collect_closed _ Hall) in Hc. inversion Hc; subst.
  split; [|now repeat split].
  now rewrite (as_completed_perm schedule futs) in Hall.
Qed.

(** X7. The order in which the jobs finish changes the order of the console
    lines and of the two lists, and nothing else: a round that returns
    under one completion order returns under every other, with the same
    lines, the same succeeded names and the same failed descriptors up to
    order. *)
Theorem round_order_independent (w : nat -> os_world)
    (schedule1 schedule2 : list nat) (tasks : list task) (gpu_ids : list Z)
    (script : string) (out1 : list line) (ok1 : list string)
    (fail1 : list task) :
  run_tasks path_parent w schedule1 tasks gpu_ids script
  = (out1, Ret (ok1, fail1)) ->
  exists out2 ok2 fail2,
    run_tasks path_parent w schedule2 tasks gpu_ids script
    = (out2, Ret (ok2, fail2)) /\
    out1 ≡ₚ out2 /\ ok1 ≡ₚ ok2 /\ fail1 ≡ₚ fail2.
Proof.
  intros H. pose proof (run_tasks_ret _ _ _ _ _ _ _ _ _ H) as (Hg & _).
  apply run_tasks_closed in H as (futs & Hs & Hall & -> & -> & ->).
  exists (flat_map status_line (as_completed schedule2 futs)),
         (flat_map succeeded_of (as_completed schedule2 futs)),
         (flat_map failed_of (as_completed schedule2 futs)).
  split.
  - unfold run_tasks. destruct gpu_ids as [|g0 gpu_ids']; [congruence|].
    change (length (g0 :: gpu_ids') =? 0)%nat with false. cbv iota.
    rewrite Hs. apply collect_closed.
    now rewrite (as_completed_perm schedule2 futs).
  - assert (Hp : as_completed schedule1 futs ≡ₚ as_completed schedule2 futs)
      by (now rewrite !as_completed_perm).
    repeat split; now apply flat_map_perm.
Qed.

Lemma submit_from_elem (w : nat -> os_world) (gpu_ids : list Z)
    (tasks : list task) (futs : list future) (f : future) :
  submit_from path_parent w gpu_ids 0 tasks = Ret futs ->
  f ∈ futs <->
  exists i t g script_path,
    tasks !! i = Some t /\
    gpu_ids !! Nat.modulo i (length gpu_ids) = Some g /\
    task_cmd t !! 1%nat = Some script_path /\
    f = submitted path_parent (w i) g script_path t.
Proof.
  intros Hs. split; [now apply submit_from_origin|].
  intros (i & t & g & sp & Ht & Hg & Hsp & ->).
  destruct (submit_from_lookup _ _ _ _ _ _ Hs _ _ Ht)
    as (g' & sp' & L1 & L2 & L3).
  simpl in L1, L3. rewrite Hg in L1. rewrite Hsp in L2.
  inversion L1; subst g'. inversion L2; subst sp'.
  apply list_elem_of_lookup. now exists i.
Qed.

Lemma status_line_length (done : list future) :
  Forall (fun f => exists ret, fut_result f = Ret ret) done ->
  length (flat_map status_line done) = length done.
Proof.
  induction 1 as [|f done [ret Hf] _ IH]; simpl; [reflexivity|].
  rewrite length_app, IH. unfold status_line. rewrite Hf.
  now destruct (ret =? 0).
Qed.

Lemma status_line_ok (f : future) (g : Z) (n : string) :
  OkLine g n ∈ status_line f <->
  fut_result f = Ret 0 /\ task_gpu (fut_task f) = g /\
  task_name (fut_task f) = n.
Proof.
  unfold status_line. destruct (fut_result f) as [ret|e].
  - destruct (Z.eqb_spec ret 0) as [->|Hne].
    + rewrite list_elem_of_singleton. split.
      * intros H. now inversion H.
      * now intros (_ & -> & ->).
    + rewrite list_elem_of_singleton. split; [discriminate|].
      intros (H & _). congruence.
  - split; [intros H; now apply elem_of_nil in H|].
    intros (H & _). discriminate.
Qed.

Lemma status_line_fail (f : future) (g : Z) (n : string) (r : Z) :
  FailLine g n r ∈ status_line f <->
  fut_result f = Ret r /\ r <> 0 /\ task_gpu (fut_task f) = g /\
  task_name (fut_task f) = n.
Proof.
  unfold status_line. destruct (fut_result f) as [ret|e].
  - destruct (Z.eqb_spec ret 0) as [->|Hne].
    + rewrite list_elem_of_singleton. split; [discriminate|].
      intros (H & Hr & _). congruence.
    + rewrite list_elem_of_singleton. split.
      * intros H. inversion H; subst. now repeat split.
      * intros (H & _ & -> & ->). congruence.
  - split; [intros H; now apply elem_of_nil in H|].
    intros (H & _). discriminate.
Qed.

Lemma elem_of_flat_map {A B : Type} (f : A -> list B) (l : list A) (y : B) :
  y ∈ flat_map f l <-> exists x, x ∈ l /\ y ∈ f x.
Proof.
  rewrite list_elem_of_In, in_flat_map. split; intros (x & H1 & H2);
    exists x; split; now apply list_elem_of_In.
Qed.

(** X8. The console of a round tells what happened: it has one line for each
    job; a line [OK] with GPU [g] and name [n] is there exactly when some
    job named [n], at a position whose GPU is [g], had [run_one] return 0;
    a line [FAIL] with code [ret] is there exactly when such a job had
    [run_one] return the nonzero code [ret]. *)
Theorem round_console (w : nat -> os_world) (schedule : list nat)
    (tasks : list task) (gpu_ids : list Z) (script : string)
    (out : list line) (ok : list string) (fail : list task) :
  run_tasks path_parent w schedule tasks gpu_ids script
  = (out, Ret (ok, fail)) ->
  length out = length tasks /\
  (forall g n,
     OkLine g n ∈ out <->
     exists i t script_path,
       tasks !! i = Some t /\ task_name t = n /\
       gpu_ids !! Nat.modulo i (length gpu_ids) = Some g /\
       task_cmd t !! 1%nat = Some script_path /\
       run_one (w i) (task_cmd t) g (task_log t) (path_parent script_path)
       = Ret 0) /\
  (forall g n ret,
     FailLine g n ret ∈ out <->
     exists i t script_path,
       tasks !! i = Some t /\ task_name t = n /\
       gpu_ids !! Nat.modulo i (length gpu_ids) = Some g /\
       task_cmd t !! 1%nat = Some script_path /\
       run_one (w i) (task_cmd t) g (task_log t) (path_parent script_path)
       = Ret ret /\
       ret <> 0).
Proof.
  intros H. apply run_tasks_closed in H as (futs & Hs & Hall & -> & _ & _).
  split; [|split].
  - rewrite status_line_length
      by (now rewrite (as_completed_perm schedule futs)).
    rewrite (Permutation_length (as_completed_perm schedule futs)).
    eapply submit_from_length, Hs.
  - intros g n. rewrite elem_of_flat_map. split.
    + intros (f & Hf & Hl).
      rewrite (as_completed_perm schedule futs) in Hf.
      apply (submit_from_elem _ _ _ _ _ Hs) in Hf
        as (i & t & g' & sp & H1 & H2 & H3 & ->).
      apply status_line_ok in Hl as (Hr & Hg & Hn). simpl in *. subst g'.
      exists i, t, sp. now repeat split.
    + intros (i & t & sp & H1 & H2 & H3 & H4 & H5).
      exists (submitted path_parent (w i) g sp t). split.
      * rewrite (as_completed_perm schedule futs).
        apply (submit_from_elem _ _ _ _ _ Hs). now exists i, t, g, sp.
      * apply status_line_ok. simpl. now repeat split.
  - intros g n ret. rewrite elem_of_flat_map. split.
    + intros (f & Hf & Hl).
      rewrite (as_completed_perm schedule futs) in Hf.
      apply (submit_from_elem _ _ _ _ _ Hs) in Hf
        as (i & t & g' & sp & H1 & H2 & H3 & ->).
      apply status_line_fail in Hl as (Hr & Hne & Hg & Hn). simpl in *.
      subst g'. exists i, t, sp. now repeat split.
    + intros (i & t & sp & H1 & H2 & H3 & H4 & H5 & H6).
      exists (submitted path_parent (w i) g sp t). split.
      * rewrite (as_completed_perm schedule futs).
        apply (submit_from_elem _ _ _ _ _ Hs). now exists i, t, g, sp.
      * apply status_line_fail. simpl. now repeat split.
Qed.

Lemma map_lookup {A B : Type} (f : A -> B) (l : list A) (i : nat) :
  map f l !! i = option_map f (l !! i).
Proof.
  revert i. induction l as [|x l IH]; intros [|i]; simpl; auto.
Qed.

(** X9. The GPU ids are dealt out in rounds: the jobs of a round take the ids
    of the list in order, starting again at the first id after the last.
    So when the jobs are not more than the ids, they take the first ids,
    one each, and different ones when the ids are different; and the jobs
    at positions [i] and [i + len(gpu_ids)] always get the same id. *)
Theorem gpu_round_robin (w : nat -> os_world) (gpu_ids : list Z)
    (tasks : list task) :
  gpu_ids <> [] -> Forall has_script tasks ->
  exists futs,
    submit_from path_parent w gpu_ids 0 tasks = Ret futs /\
    let used := map (fun f => task_gpu (fut_task f)) futs in
    used = take (length tasks) (rounds_of_gpus (length tasks) gpu_ids) /\
    ((length tasks <= length gpu_ids)%nat ->
     used = take (length tasks) gpu_ids /\ (NoDup gpu_ids -> NoDup used)) /\
    (forall i, (i + length gpu_ids < length tasks)%nat ->
       used !! (i + length gpu_ids)%nat = used !! i).
Proof.
  intros Hg Hs.
  destruct (submit_from_total path_parent w gpu_ids tasks Hg Hs 0%nat)
    as [futs Hf].
  exists futs. split; [exact Hf|]. intros used.
  pose proof (submit_from_length _ _ _ _ _ _ Hf) as Hlen.
  assert (HG : (0 < length gpu_ids)%nat)
    by (destruct gpu_ids; simpl; [congruence|lia]).
  assert (Hused : forall i, (i < length tasks)%nat ->
            used !! i = gpu_ids !! Nat.modulo i (length gpu_ids)).
  { intros i Hi. destruct (lookup_lt_is_Some_2 tasks i Hi) as [t Ht].
    destruct (submit_from_lookup _ _ _ _ _ _ Hf _ _ Ht)
      as (g & sp & L1 & _ & L3).
    simpl in L1, L3. unfold used. now rewrite map_lookup, L3, L1. }
  assert (Hul : length used = length tasks)
    by (unfold used; now rewrite length_map).
  split; [|split].
  - apply list_eq. intros i.
    destruct (Nat.lt_ge_cases i (length tasks)) as [Hi|Hi].
    + rewrite lookup_take_lt by exact Hi.
      rewrite rounds_of_gpus_lookup by nia. now apply Hused.
    + rewrite lookup_take_ge by exact Hi.
      apply lookup_ge_None_2. lia.
  - intros Hle.
    assert (Heq : used = take (length tasks) gpu_ids).
    { apply list_eq. intros i.
      destruct (Nat.lt_ge_cases i (length tasks)) as [Hi|Hi].
      - rewrite lookup_take_lt by exact Hi.
        rewrite Hused by exact Hi. now rewrite Nat.mod_small by lia.
      - rewrite lookup_take_ge by exact Hi.
        apply lookup_ge_None_2. lia. }
    split; [exact Heq|]. intros Hn. rewrite Heq.
    eapply sublist_NoDup; [exact Hn|apply sublist_take].
  - intros i Hi. rewrite !Hused by lia.
    replace (i + length gpu_ids)%nat with (i + 1 * length gpu_ids)%nat
      by lia.
    now rewrite Nat.Div0.mod_add.
Qed.

End MoreRoundFacts.

Lemma round_order_independent_witness :
  exists out2 ok2 fail2,
    run_tasks demo_parent (fun _ => demo_world) [3%nat; 1%nat] demo_tasks
      [0; 1; 2] demo_script = (out2, Ret (ok2, fail2)) /\
    [OkLine 0 "A"; FailLine 1 "B" 1; FailLine 2 "C" 1; OkLine 0 "E"]
    ≡ₚ out2 /\
    ["A"; "E"] ≡ₚ ok2 /\
    [Task (task_cmd (demo_task "B")) 1 "B" None;
     Task (task_cmd (demo_task "C")) 2 "C" None] ≡ₚ fail2.
Proof.
  apply (round_order_independent demo_parent (fun _ => demo_world) []
           [3%nat; 1%nat] demo_tasks [0; 1; 2] demo_script).
  vm_compute. reflexivity.
Defined.

Lemma round_console_witness :
  length [OkLine 0 "A"; FailLine 1 "B" 1; FailLine 2 "C" 1; OkLine 0 "E"]
  = length demo_tasks.
Proof.
  apply (round_console demo_parent (fun _ => demo_world) [] demo_tasks
           [0; 1; 2] demo_script _ ["A"; "E"]
           [Task (task_cmd (demo_task "B")) 1 "B" None;
            Task (task_cmd (demo_task "C")) 2 "C" None]).
  vm_compute. reflexivity.
Defined.

Lemma gpu_round_robin_witness :
  exists futs,
    submit_from demo_parent (fun _ => demo_world) [5; 7; 9; 11] 0 demo_tasks
    = Ret futs /\
    map (fun f => task_gpu (fut_task f)) futs = [5; 7; 9; 11] /\
    NoDup (map (fun f => task_gpu (fut_task f)) futs).
Proof.
  destruct (gpu_round_robin demo_parent (fun _ => demo_world) [5; 7; 9; 11]
              demo_tasks) as (futs & Hf & _ & H & _).
  - discriminate.
  - exact demo_has_script.
  - exists futs. split; [exact Hf|].
    destruct H as [H1 H2]; [simpl; lia|]. split; [exact H1|].
    apply H2. apply (bool_decide_unpack _). vm_compute. exact I.
Defined.

(** ** The whole run, lines 179-194 *)

Section MoreDriverFacts.

Variable path_parent : string -> string.
Variable W : Z -> nat -> os_world.
Variable schedules : Z -> list nat.
Variable gpu_ids : list Z.
Variable script : string.
Variable max_retries : Z.

Local Abbreviation loop := (retry_loop path_parent W schedules).
Local Abbreviation round k tasks :=
  (run_tasks path_parent (W k) (schedules k) tasks gpu_ids script).
Local Abbreviation rounds fuel tasks :=
  (main_rounds path_parent W schedules fuel tasks gpu_ids script max_retries).

(** The three ways in which one turn of the loop ends. *)
Lemma retry_loop_cases (fuel : nat) (attempts : Z) (ok : list string)
    (fail : list task) (out : list line) r :
  loop (S fuel) gpu_ids script max_retries attempts ok fail = Some (out, r) ->
  ((fail = [] \/ max_retries <= attempts) /\
   out = [] /\ r = Ret (ok, fail, attempts)) \/
  (fail <> [] /\ attempts < max_retries /\
   exists out_r e,
     round (attempts + 1) fail = (out_r, Raise e) /\
     out = RetryLine (attempts + 1) (length fail) :: out_r /\
     r = Raise e) \/
  (fail <> [] /\ attempts < max_retries /\
   exists out_r ok2 fail2 out_rest,
     round (attempts + 1) fail = (out_r, Ret (ok2, fail2)) /\
     loop fuel gpu_ids script max_retries (attempts + 1) (ok ++ ok2) fail2
     = Some (out_rest, r) /\
     out = RetryLine (attempts + 1) (length fail) :: out_r
           ++ RoundLine (attempts + 1 + 1) (length ok2) (length fail2)
           :: out_rest).
Proof.
  simpl. destruct (truthy fail) eqn:Et; simpl.
  - destruct (Z.ltb_spec attempts max_retries) as [Hlt|Hge].
    + intros H. right.
      assert (Hne : fail <> []) by (now destruct fail).
      destruct (round (attempts + 1) fail) as [out_r [[ok2 fail2]|e]] eqn:Er.
      * right. split; [exact Hne|]. split; [exact Hlt|].
        destruct (loop fuel gpu_ids script max_retries (attempts + 1)
                    (ok ++ ok2) fail2) as [[out_rest r']|] eqn:El;
          [|discriminate].
        unfold printed in H. simpl in H. inversion H; subst.
        exists out_r, ok2, fail2, out_rest. split; [reflexivity|].
        split; [exact El|]. now rewrite <- app_assoc.
      * left. split; [exact Hne|]. split; [exact Hlt|].
        inversion H; subst. now exists out_r, e.
    + intros H. inversion H; subst. left. auto.
  - intros H. inversion H; subst. left. apply truthy_false in Et. auto.
Qed.

Lemma rounds_cases (fuel : nat) (tasks : list task) (out : list line) r :
  rounds fuel tasks = Some (out, r) ->
  (exists e, round 0 tasks = (out, Raise e) /\ r = Raise e) \/
  (exists out1 ok1 fail1 out' r',
     round 0 tasks = (out1, Ret (ok1, fail1)) /\
     loop fuel gpu_ids script max_retries 0 ok1 fail1 = Some (out', r') /\
     ((exists e, r' = Raise e /\ r = Raise e /\
         out = out1 ++ FirstRoundLine (length ok1) (length fail1) :: out') \/
      (exists ok fail attempts,
         r' = Ret (ok, fail, attempts) /\ r = Ret (ok, fail, attempts) /\
         out = out1 ++ FirstRoundLine (length ok1) (length fail1) :: out'
               ++ DoneLine (length ok) (length fail)
               :: (if truthy fail
                   then [StillFailingLine (map task_name fail)]
                   else [])))).
Proof.
  unfold main_rounds.
  destruct (round 0 tasks) as [out1 [[ok1 fail1]|e]] eqn:E1.
  - destruct (loop fuel gpu_ids script max_retries 0 ok1 fail1)
      as [[out' [[[ok fail] attempts]|e]]|] eqn:El; [| |discriminate].
    + intros H. inversion H; subst. right.
      exists out1, ok1, fail1, out', (Ret (ok, fail, attempts)).
      split; [reflexivity|]. split; [exact El|]. right.
      now exists ok, fail, attempts.
    + intros H. inversion H; subst. right.
      exists out1, ok1, fail1, out', (Raise e).
      split; [reflexivity|]. split; [exact El|]. left. now exists e.
  - intros H. inversion H; subst. left. now exists e.
Qed.

Lemma round_perm (k : Z) (tasks : list task) (out : list line)
    (ok : list string) (fail : list task) :
  round k tasks = (out, Ret (ok, fail)) ->
  ok ++ map task_name fail ≡ₚ map task_name tasks.
Proof.
  intros H. apply run_tasks_console in H as (H1 & H2 & H3 & _).
  now rewrite H1, H2, status_names_split.
Qed.

Lemma retry_loop_perm (fuel : nat) :
  forall attempts ok fail out ok' fail' attempts',
    loop fuel gpu_ids script max_retries attempts ok fail
    = Some (out, Ret (ok', fail', attempts')) ->
    ok' ++ map task_name fail' ≡ₚ ok ++ map task_name fail.
Proof.
  induction fuel as [|fuel IH];
    intros attempts ok fail out ok' fail' attempts' H; [discriminate|].
  apply retry_loop_inv in H
    as [(_ & _ & -> & -> & _)
       |(_ & _ & out_r & ok2 & fail2 & out_rest & Er & El & _)].
  - reflexivity.
  - rewrite (IH _ _ _ _ _ _ _ El), <- app_assoc.
    now rewrite (round_perm _ _ _ _ _ Er).
Qed.

(** X10. At the end of a run every job is in exactly one of the two final
    lists: the succeeded names and the names of the jobs still failing
    are, with repetitions, the names of the jobs the run started with, and
    the two counts of the closing summary add up to the number of jobs. *)
Theorem run_partition (fuel : nat) (tasks : list task) (out : list line)
    (ok : list string) (fail : list task) (attempts : Z) :
  rounds fuel tasks = Some (out, Ret (ok, fail, attempts)) ->
  ok ++ map task_name fail ≡ₚ map task_name tasks /\
  (length ok + length fail = length tasks)%nat /\
  DoneLine (length ok) (length fail) ∈ out.
Proof.
  intros H. apply rounds_cases in H as [(e & _ & He)|H]; [discriminate|].
  destruct H as (out1 & ok1 & fail1 & out' & r' & E1 & El & [H|H]).
  { destruct H as (e & _ & He & _). discriminate. }
  destruct H as (ok0 & fail0 & a0 & E' & Hr & ->).
  inversion Hr; subst ok0 fail0 a0. subst r'.
  assert (Hp : ok ++ map task_name fail ≡ₚ map task_name tasks).
  { rewrite (retry_loop_perm _ _ _ _ _ _ _ _ El). eapply round_perm, E1. }
  split; [exact Hp|]. split.
  - apply Permutation_length in Hp. now rewrite length_app, !length_map in Hp.
  - apply elem_of_app. right. apply list_elem_of_further, elem_of_app. right.
    apply list_elem_of_here.
Qed.

Lemma collect_lines (done : list future) :
  forall ok fail,
    (length (status_names (fst (collect done ok fail))) <= length done)%nat.
Proof.
  induction done as [|f done IH]; intros ok fail; simpl; [lia|].
  destruct (fut_result f) as [ret|e]; [|simpl; lia].
  destruct (fut_task f) as [cmd g name log].
  destruct (ret =? 0); unfold printed; simpl.
  - specialize (IH (ok ++ [name]) fail). unfold status_names in *. lia.
  - specialize (IH ok (fail ++ [Task cmd g name log])).
    unfold status_names in *. lia.
Qed.

Lemma round_lines (k : Z) (tasks : list task) :
  (length (status_names (fst (round k tasks))) <= length tasks)%nat.
Proof.
  unfold run_tasks. destruct (length gpu_ids =? 0)%nat; [simpl; lia|].
  destruct (submit_from path_parent (W k) gpu_ids 0 tasks) as [futs|] eqn:E;
    [|simpl; lia].
  rewrite <- (submit_from_length _ _ _ _ _ _ E).
  rewrite <- (Permutation_length (as_completed_perm (schedules k) futs)).
  apply collect_lines.
Qed.

Lemma round_fail_length (k : Z) (tasks : list task) (out : list line)
    (ok : list string) (fail : list task) :
  round k tasks = (out, Ret (ok, fail)) ->
  (length fail <= length tasks)%nat.
Proof.
  intros H. apply round_perm, Permutation_length in H.
  rewrite length_app, !length_map in H. lia.
Qed.

Lemma retry_loop_cost (fuel : nat) :
  forall attempts ok fail out r,
    loop fuel gpu_ids script max_retries attempts ok fail = Some (out, r) ->
    (length (status_names out)
     <= length fail * Z.to_nat (max_retries - attempts))%nat.
Proof.
  induction fuel as [|fuel IH]; intros attempts ok fail out r H;
    [discriminate|].
  apply retry_loop_cases in H
    as [(_ & -> & _)
       |[(_ & Hlt & out_r & e & Er & -> & _)
        |(_ & Hlt & out_r & ok2 & fail2 & out_rest & Er & El & ->)]].
  - simpl. apply Nat.le_0_l.
  - pose proof (round_lines (attempts + 1) fail) as Hl.
    rewrite Er in Hl. simpl in Hl.
    change (status_names (RetryLine (attempts + 1) (length fail) :: out_r))
      with (status_names out_r).
    assert (1 <= Z.to_nat (max_retries - attempts))%nat by lia. nia.
  - pose proof (round_lines (attempts + 1) fail) as Hl.
    rewrite Er in Hl. simpl in Hl.
    pose proof (round_fail_length _ _ _ _ _ Er) as Hf.
    specialize (IH _ _ _ _ _ El).
    destruct (console_turn (attempts + 1) (length fail) out_r
                (attempts + 1 + 1) (length ok2) (length fail2) out_rest)
      as (Es & _ & _).
    rewrite Es, length_app.
    replace (Z.to_nat (max_retries - attempts))
      with (S (Z.to_nat (max_retries - (attempts + 1)))) by lia.
    nia.
Qed.

(** X11. A run reports at most [len(tasks) * (max_retries + 1)] job results,
    however it ends. *)
Theorem run_cost (fuel : nat) (tasks : list task) (out : list line) r :
  rounds fuel tasks = Some (out, r) ->
  (length (status_names out)
   <= length tasks * (Z.to_nat max_retries + 1))%nat.
Proof.
  intros H. pose proof (round_lines 0 tasks) as Hl.
  apply rounds_cases in H as [(e & E1 & _)|H].
  { rewrite E1 in Hl. simpl in Hl. nia. }
  destruct H as (out1 & ok1 & fail1 & out' & r' & E1 & El & H).
  rewrite E1 in Hl. simpl in Hl.
  pose proof (round_fail_length _ _ _ _ _ E1) as Hf.
  apply retry_loop_cost in El. rewrite Z.sub_0_r in El.
  assert (Hs : status_names out = status_names out1 ++ status_names out').
  { destruct H as [(e & _ & _ & ->)|(ok & fail & a & _ & _ & ->)].
    - now rewrite status_names_app.
    - now destruct (console_main out1 (length ok1) (length fail1) out'
                      (length ok) (length fail) fail) as (Es & _). }
  rewrite Hs, length_app. nia.
Qed.

(** X12. A retry round is run exactly when the first round leaves a failed job
    and the budget is positive; a budget of zero or less means no retry.
    Without a retry the run ends with the lists of the first round. *)
Theorem retry_happens_iff (fuel : nat) (tasks : list task) (out : list line)
    r (out1 : list line) (ok1 : list string) (fail1 : list task) :
  rounds fuel tasks = Some (out, r) ->
  round 0 tasks = (out1, Ret (ok1, fail1)) ->
  (retries out = [] <-> fail1 = [] \/ max_retries <= 0) /\
  (retries out = [] -> r = Ret (ok1, fail1, 0)).
Proof.
  intros H E1. pose proof (run_tasks_retries path_parent (W 0) (schedules 0)
                             tasks gpu_ids script) as Hr1.
  rewrite E1 in Hr1. simpl in Hr1.
  apply rounds_cases in H as [(e & E1' & _)|H]; [congruence|].
  destruct H as (out1' & ok1' & fail1' & out' & r' & E1' & El & H).
  rewrite E1 in E1'. inversion E1'; subst out1' ok1' fail1'. clear E1'.
  assert (Hs : retries out = retries out').
  { destruct H as [(e & _ & _ & ->)|(ok & fail & a & _ & _ & ->)].
    - rewrite retries_app, Hr1. reflexivity.
    - destruct (console_main out1 (length ok1) (length fail1) out'
                  (length ok) (length fail) fail) as (_ & _ & Et).
      now rewrite Et, Hr1. }
  rewrite Hs. destruct fuel as [|fuel]; [discriminate|].
  apply retry_loop_cases in El
    as [(Hex & -> & ->)
       |[(Hne & Hlt & out_r & e & _ & -> & _)
        |(Hne & Hlt & out_r & ok2 & fail2 & out_rest & _ & _ & ->)]].
  - split; [tauto|]. intros _.
    destruct H as [(e & He & _)|(ok & fail & a & Hr' & -> & _)];
      [discriminate|exact (eq_sym Hr')].
  - split; [|discriminate]. split; [discriminate|]. intros [?|?]; [tauto|lia].
  - split; [|discriminate]. split; [discriminate|]. intros [?|?]; [tauto|lia].
Qed.

Lemma round_from_tasks (tasks0 : list task) (k : Z) (tasks : list task)
    (out : list line) (ok : list string) (fail : list task) :
  round k tasks = (out, Ret (ok, fail)) ->
  Forall (fun d => exists t, t ∈ tasks0 /\ job_of d = job_of t) tasks ->
  Forall (from_tasks tasks0 gpu_ids) fail.
Proof.
  intros H Hall. apply Forall_forall. intros d Hd.
  destruct (run_tasks_fail_origin _ _ _ _ _ _ _ _ _ _ H Hd)
    as (i & t & g & sp & ret & H1 & H2 & H3 & -> & _).
  rewrite Forall_forall in Hall.
  destruct (Hall t) as (t0 & Ht0 & Hj);
    [apply list_elem_of_lookup; now exists i|].
  split; [|split].
  - exists t0. split; [exact Ht0|]. unfold job_of in *. simpl. exact Hj.
  - simpl. apply list_elem_of_lookup. eauto.
  - now exists sp.
Qed.

Lemma from_tasks_weaken (tasks0 : list task) (l : list task) :
  Forall (from_tasks tasks0 gpu_ids) l ->
  Forall (fun d => exists t, t ∈ tasks0 /\ job_of d = job_of t) l.
Proof.
  intros H. eapply Forall_impl; [exact H|]. now intros d (Hd & _).
Qed.

Lemma retry_loop_from_tasks (tasks0 : list task) (fuel : nat) :
  forall attempts ok fail out ok' fail' attempts',
    Forall (from_tasks tasks0 gpu_ids) fail ->
    loop fuel gpu_ids script max_retries attempts ok fail
    = Some (out, Ret (ok', fail', attempts')) ->
    Forall (from_tasks tasks0 gpu_ids) fail'.
Proof.
  induction fuel as [|fuel IH];
    intros attempts ok fail out ok' fail' attempts' Hall H; [discriminate|].
  apply retry_loop_inv in H
    as [(_ & _ & _ & -> & _)
       |(_ & _ & out_r & ok2 & fail2 & out_rest & Er & El & _)].
  - exact Hall.
  - eapply IH; [|exact El].
    eapply round_from_tasks; [exact Er|now apply from_tasks_weaken].
Qed.

(** X13. The jobs still failing at the end of a run are jobs of the run: each
    final failed descriptor has the command, the name and the log path of
    one of the tasks the run started with, its command names a script, and
    its GPU id is one of the configured ids. *)
Theorem final_failed_are_tasks (fuel : nat) (tasks : list task)
    (out : list line) (ok : list string) (fail : list task) (attempts : Z) :
  rounds fuel tasks = Some (out, Ret (ok, fail, attempts)) ->
  forall d, d ∈ fail ->
    (exists t,
       t ∈ tasks /\ task_cmd d = task_cmd t /\ task_name d = task_name t /\
       task_log d = task_log t) /\
    task_gpu d ∈ gpu_ids /\
    has_script d.
Proof.
  intros H d Hd. apply rounds_cases in H as [(e & _ & He)|H]; [discriminate|].
  destruct H as (out1 & ok1 & fail1 & out' & r' & E1 & El & [H|H]).
  { destruct H as (e & _ & He & _). discriminate. }
  destruct H as (ok0 & fail0 & a0 & E' & Hr & _).
  inversion Hr; subst ok0 fail0 a0. subst r'.
  assert (H1 : Forall (from_tasks tasks gpu_ids) fail1).
  { eapply round_from_tasks; [exact E1|].
    apply Forall_forall. intros t Ht. now exists t. }
  pose proof (retry_loop_from_tasks tasks _ _ _ _ _ _ _ _ H1 El) as H2.
  rewrite Forall_forall in H2.
  destruct (H2 d Hd) as ((t & Ht & Hj) & Hg & Hs).
  split; [|now split]. exists t. unfold job_of in Hj. inversion Hj.
  now repeat split.
Qed.

Lemma collect_raise_inv (done : list future) :
  forall ok fail out e,
    collect done ok fail = (out, Raise e) ->
    exists f, f ∈ done /\ fut_result f = Raise e.
Proof.
  induction done as [|f done IH]; intros ok fail out e H; simpl in H;
    [discriminate|].
  destruct (fut_result f) as [ret|e'] eqn:Er.
  - destruct (fut_task f) as [cmd g name log].
    destruct (ret =? 0).
    + destruct (collect done (ok ++ [name]) fail) as [o r] eqn:E.
      unfold printed in H. simpl in H. inversion H; subst.
      destruct (IH _ _ _ _ E) as (f' & Hin & Hf).
      exists f'. split; [now apply list_elem_of_further|exact Hf].
    + destruct (collect done ok (fail ++ [Task cmd g name log]))
        as [o r] eqn:E.
      unfold printed in H. simpl in H. inversion H; subst.
      destruct (IH _ _ _ _ E) as (f' & Hin & Hf).
      exists f'. split; [now apply list_elem_of_further|exact Hf].
  - inversion H; subst. exists f. split; [apply list_elem_of_here|exact Er].
Qed.

Lemma round_raise_origin (k : Z) (tasks : list task) (out : list line)
    (e : exn) :
  round k tasks = (out, Raise e) ->
  gpu_ids <> [] -> Forall has_script tasks ->
  exists i t g script_path,
    tasks !! i = Some t /\
    gpu_ids !! Nat.modulo i (length gpu_ids) = Some g /\
    task_cmd t !! 1%nat = Some script_path /\
    run_one (W k i) (task_cmd t) g (task_log t) (path_parent script_path)
    = Raise e.
Proof.
  intros H Hg Hs. unfold run_tasks in H.
  destruct (submit_from_total path_parent (W k) gpu_ids tasks Hg Hs 0%nat)
    as [futs Hf].
  destruct gpu_ids as [|g0 gpu_ids'] eqn:Eg; [congruence|].
  change (length (g0 :: gpu_ids') =? 0)%nat with false in H. cbv iota in H.
  rewrite Hf in H. apply collect_raise_inv in H as (f & Hin & Hr).
  rewrite (as_completed_perm (schedules k) futs) in Hin.
  destruct (submit_from_origin _ _ _ _ _ _ Hf Hin)
    as (i & t & g & sp & H1 & H2 & H3 & ->).
  exists i, t, g, sp. now repeat split.
Qed.

Lemma retry_loop_crash (tasks0 : list task) (fuel : nat) :
  forall attempts ok fail out e,
    gpu_ids <> [] ->
    Forall (from_tasks tasks0 gpu_ids) fail ->
    loop fuel gpu_ids script max_retries attempts ok fail
    = Some (out, Raise e) ->
    exists k i t g script_path,
      attempts < k <= max_retries /\
      t ∈ tasks0 /\ g ∈ gpu_ids /\
      task_cmd t !! 1%nat = Some script_path /\
      run_one (W k i) (task_cmd t) g (task_log t) (path_parent script_path)
      = Raise e.
Proof.
  induction fuel as [|fuel IH]; intros attempts ok fail out e Hg Hall H;
    [discriminate|].
  apply retry_loop_cases in H
    as [(_ & _ & Hr)
       |[(_ & Hlt & out_r & e' & Er & _ & Hr)
        |(_ & Hlt & out_r & ok2 & fail2 & out_rest & Er & El & _)]].
  - discriminate.
  - inversion Hr; subst e'.
    apply round_raise_origin in Er as (i & d & g & sp & H1 & H2 & H3 & H4);
      [|exact Hg|].
    2:{ eapply Forall_impl; [exact Hall|]. now intros d (_ & _ & Hd). }
    rewrite Forall_forall in Hall.
    destruct (Hall d) as ((t & Ht & Hj) & _ & _);
      [apply list_elem_of_lookup; now exists i|].
    unfold job_of in Hj. inversion Hj as [[Hc Hn Hl]].
    exists (attempts + 1), i, t, g, sp. rewrite <- Hc, <- Hl.
    split; [lia|]. split; [exact Ht|].
    split; [apply list_elem_of_lookup; eauto|]. now split.
  - destruct (IH (attempts + 1) (ok ++ ok2) fail2 out_rest e Hg)
      as (k & i & t & g & sp & Hk & H'); [|exact El|].
    + eapply round_from_tasks; [exact Er|now apply from_tasks_weaken].
    + exists k, i, t, g, sp. split; [lia|exact H'].
Qed.


(** X14. The scheduler adds no failure of its own: when there is a GPU id and
    every command names a script, an exception that ends the run is one
    that a call of [run_one] raised, in the first round or in a retry
    round within the budget, for the command and log path of one of the
    tasks and one of the GPU ids. *)
Theorem run_crash_origin (fuel : nat) (tasks : list task) (out : list line)
    (e : exn) :
  rounds fuel tasks = Some (out, Raise e) ->
  gpu_ids <> [] -> Forall has_script tasks ->
  exists k i t g script_path,
    0 <= k <= Z.max 0 max_retries /\
    t ∈ tasks /\ g ∈ gpu_ids /\
    task_cmd t !! 1%nat = Some script_path /\
    run_one (W k i) (task_cmd t) g (task_log t) (path_parent script_path)
    = Raise e.
Proof.
  intros H Hg Hs. apply rounds_cases in H as [(e' & E1 & He)|H].
  - inversion He; subst e'.
    apply round_raise_origin in E1 as (i & t & g & sp & H1 & H2 & H3 & H4);
      [|exact Hg|exact Hs].
    exists 0, i, t, g, sp. split; [lia|].
    split; [apply list_elem_of_lookup; eauto|].
    split; [apply list_elem_of_lookup; eauto|]. now split.
  - destruct H as (out1 & ok1 & fail1 & out' & r' & E1 & El & [H|H]).
    2:{ destruct H as (? & ? & ? & _ & Hr & _). discriminate. }
    destruct H as (e' & -> & He & _). inversion He; subst e'.
    assert (H1 : Forall (from_tasks tasks gpu_ids) fail1).
    { eapply round_from_tasks; [exact E1|].
      apply Forall_forall. intros t Ht. now exists t. }
    destruct (retry_loop_crash tasks _ _ _ _ _ _ Hg H1 El)
      as (k & i & t & g & sp & Hk & H').
    exists k, i, t, g, sp. split; [lia|exact H'].
Qed.

Lemma rounds_return (fuel : nat) (tasks : list task) :
  (Z.to_nat max_retries < fuel)%nat ->
  exists out r, rounds fuel tasks = Some (out, r).
Proof.
  intros Hf. unfold main_rounds.
  destruct (round 0 tasks) as [out1 [[ok1 fail1]|e]]; [|now eauto].
  destruct (retry_loop_terminates path_parent W schedules gpu_ids script
              max_retries fuel 0 ok1 fail1) as (o & r & -> & _);
    [rewrite Z.sub_0_r; lia|].
  destruct r as [[[ok fail] attempts]|e]; now eauto.
Qed.

Lemma rounds_final (fuel : nat) (tasks : list task) (out : list line)
    (ok : list string) (fail : list task) (attempts : Z) :
  rounds fuel tasks = Some (out, Ret (ok, fail, attempts)) ->
  ok ++ map task_name fail ≡ₚ map task_name tasks /\
  0 <= attempts <= Z.max 0 max_retries.
Proof.
  intros H. apply rounds_cases in H as [(e & _ & He)|H]; [discriminate|].
  destruct H as (out1 & ok1 & fail1 & out' & r' & E1 & El & [H|H]).
  { destruct H as (e & _ & He & _). discriminate. }
  destruct H as (ok0 & fail0 & a0 & E' & Hr & _).
  inversion Hr; subst ok0 fail0 a0. subst r'. split.
  - rewrite (retry_loop_perm _ _ _ _ _ _ _ _ El). eapply round_perm, E1.
  - destruct (retry_loop_basic _ _ _ _ _ _ _ _ _ _ _ _ _ _ El)
      as (_ & B2 & B3 & _). lia.
Qed.

End MoreDriverFacts.

Lemma run_partition_witness :
  ["A"; "E"] ++ map task_name
                  [Task (task_cmd (demo_task "B")) 0 "B" None;
                   Task (task_cmd (demo_task "C")) 1 "C" None]
  ≡ₚ map task_name demo_tasks.
Proof.
  refine (proj1 (run_partition demo_parent (fun _ _ => demo_world)
                   (fun _ => []) [0; 1; 2] demo_script 2 3 demo_tasks _
                   ["A"; "E"] _ 2 _)).
  vm_compute. reflexivity.
Defined.

Lemma run_cost_witness :
  (length (status_names
             [OkLine 0 "A"; FailLine 1 "B" 1; FailLine 2 "C" 1; OkLine 0 "E";
              FirstRoundLine 2 2; RetryLine 1 2; FailLine 0 "B" 1;
              FailLine 1 "C" 1; RoundLine 2 0 2; RetryLine 2 2;
              FailLine 0 "B" 1; FailLine 1 "C" 1; RoundLine 3 0 2;
              DoneLine 2 2; StillFailingLine ["B"; "C"]])
   <= length demo_tasks * (Z.to_nat 2 + 1))%nat.
Proof.
  refine (run_cost demo_parent (fun _ _ => demo_world) (fun _ => [])
            [0; 1; 2] demo_script 2 3 demo_tasks _ _ _).
  vm_compute. reflexivity.
Defined.

Lemma retry_happens_iff_witness :
  retries [OkLine 0 "A"; FailLine 1 "B" 1; FirstRoundLine 1 1; DoneLine 1 1;
           StillFailingLine ["B"]] = [] <->
  [Task (task_cmd (demo_task "B")) 1 "B" None] = [] \/ -1 <= 0.
Proof.
  refine (proj1 (retry_happens_iff demo_parent (fun _ _ => demo_world)
                   (fun _ => []) [0; 1] demo_script (-1) 1
                   [demo_task "A"; demo_task "B"] _ _
                   [OkLine 0 "A"; FailLine 1 "B" 1] ["A"] _ _ _)).
  - vm_compute. reflexivity.
  - vm_compute. reflexivity.
Defined.

Lemma final_failed_are_tasks_witness :
  (exists t,
     t ∈ demo_tasks /\
     task_cmd (Task (task_cmd (demo_task "C")) 1 "C" None) = task_cmd t /\
     "C" = task_name t /\ None = task_log t) /\
  1 ∈ [0; 1; 2] /\
  has_script (Task (task_cmd (demo_task "C")) 1 "C" None).
Proof.
  refine (final_failed_are_tasks demo_parent (fun _ _ => demo_world)
            (fun _ => []) [0; 1; 2] demo_script 2 3 demo_tasks _ ["A"; "E"]
            [Task (task_cmd (demo_task "B")) 0 "B" None;
             Task (task_cmd (demo_task "C")) 1 "C" None] 2 _
            (Task (task_cmd (demo_task "C")) 1 "C" None) _).
  - vm_compute. reflexivity.
  - apply list_elem_of_further, list_elem_of_here.
Defined.

Lemma run_crash_origin_witness :
  exists (k : Z) (i : nat) t g script_path,
    0 <= k <= Z.max 0 2 /\
    t ∈ [demo_task "A"; demo_task "D"; demo_task "B"] /\ g ∈ [0; 1] /\
    task_cmd t !! 1%nat = Some script_path /\
    run_one demo_world (task_cmd t) g (task_log t)
      (demo_parent script_path)
    = Raise (OSError "No such file or directory").
Proof.
  refine (run_crash_origin demo_parent (fun _ _ => demo_world)
            (fun _ => []) [0; 1] demo_script 2 3
            [demo_task "A"; demo_task "D"; demo_task "B"] [OkLine 0 "A"]
            (OSError "No such file or directory") _ _ _).
  - vm_compute. reflexivity.
  - discriminate.
  - repeat constructor; eexists; reflexivity.
Defined.

(** ** The GPU list, line 134 *)

Lemma split_on_nonempty (sep : ascii) (s : string) : split_on sep s <> [].
Proof.
  destruct s as [|c s]; simpl; [discriminate|].
  destruct (Ascii.eqb c sep); [discriminate|].
  now destruct (split_on sep s).
Qed.

Lemma split_on_app (sep : ascii) (a b : string) :
  split_on sep (a +:+ String sep b) = split_on sep a ++ split_on sep b.
Proof.
  induction a as [|c a IH].
  - change (split_on sep (String sep b) = [""] ++ split_on sep b).
    simpl. now rewrite Ascii.eqb_refl.
  - change (split_on sep (String c (a +:+ String sep b))
            = split_on sep (String c a) ++ split_on sep b).
    simpl. destruct (Ascii.eqb c sep); [now rewrite IH|].
    rewrite IH. pose proof (split_on_nonempty sep a) as Hn.
    now destruct (split_on sep a).
Qed.

Lemma split_on_no_sep (sep : ascii) (b : string) :
  ~ substring (String sep "") b -> split_on sep b = [b].
Proof.
  induction b as [|c b IH]; intros H; [reflexivity|]. simpl.
  destruct (Ascii.eqb_spec c sep) as [->|Hne].
  - exfalso. apply H. now exists "", b.
  - rewrite IH; [reflexivity|].
    intros (pre & post & ->). apply H. now exists (String c pre), post.
Qed.

(** [",".join(s.split(","))] is [s]. *)
Lemma split_on_join (sep : ascii) (s : string) :
  String.concat (String sep "") (split_on sep s) = s.
Proof.
  induction s as [|c s IH]; [reflexivity|]. simpl.
  pose proof (split_on_nonempty sep s) as Hn.
  destruct (Ascii.eqb_spec c sep) as [->|Hne].
  - destruct (split_on sep s) as [|x xs] eqn:E; [congruence|].
    change (String.concat (String sep "") ("" :: x :: xs))
      with (String sep (String.concat (String sep "") (x :: xs))).
    now rewrite IH.
  - destruct (split_on sep s) as [|x xs] eqn:E; [congruence|].
    destruct xs as [|y ys]; simpl in *; now rewrite <- IH.
Qed.

Lemma parse_ints_app (h : host) (l1 l2 : list string) :
  parse_ints h (l1 ++ l2)
  = res_bind (parse_ints h l1) (fun z1 =>
      res_bind (parse_ints h l2) (fun z2 => Ret (z1 ++ z2))).
Proof.
  induction l1 as [|x l1 IH]; simpl.
  - now destruct (parse_ints h l2).
  - destruct (String.eqb (strip h x) ""); [exact IH|].
    destruct (int_of h x) as [z|]; [|reflexivity].
    rewrite IH. destruct (parse_ints h l1) as [z1|]; [|reflexivity]. simpl.
    now destruct (parse_ints h l2).
Qed.

Lemma parse_gpus_comma (h : host) (a b : string) :
  parse_gpus h (a +:+ "," +:+ b)
  = res_bind (parse_gpus h a) (fun za =>
      res_bind (parse_gpus h b) (fun zb => Ret (za ++ zb))).
Proof.
  unfold parse_gpus.
  change (a +:+ "," +:+ b) with (a +:+ String "," b).
  now rewrite split_on_app, parse_ints_app.
Qed.

(** X15. Reading a GPU list that is two lists joined by a comma is reading the
    first, then the second, and appending the results; when one of them
    cannot be read, neither can the whole. *)
Theorem parse_gpus_concat (h : host) (a b : string) :
  (forall za zb,
     parse_gpus h a = Ret za -> parse_gpus h b = Ret zb ->
     parse_gpus h (a +:+ "," +:+ b) = Ret (za ++ zb)) /\
  (forall e,
     parse_gpus h a = Raise e -> parse_gpus h (a +:+ "," +:+ b) = Raise e) /\
  (forall za e,
     parse_gpus h a = Ret za -> parse_gpus h b = Raise e ->
     parse_gpus h (a +:+ "," +:+ b) = Raise e).
Proof.
  rewrite parse_gpus_comma. split; [|split].
  - now intros za zb -> ->.
  - now intros e ->.
  - now intros za e -> ->.
Qed.

Lemma parse_gpus_concat_witness :
  parse_gpus demo_host ("0, 1" +:+ "," +:+ "2,3") = Ret ([0; 1] ++ [2; 3]).
Proof.
  apply (proj1 (parse_gpus_concat demo_host "0, 1" "2,3")); reflexivity.
Defined.

(** X16. A field that [strip] empties is skipped, wherever it stands: between
    two commas, or after the last one. *)
Theorem blank_field_skipped (h : host) (a b c : string) :
  ~ substring "," b -> strip h b = "" ->
  parse_gpus h (a +:+ "," +:+ b +:+ "," +:+ c)
  = parse_gpus h (a +:+ "," +:+ c) /\
  parse_gpus h (a +:+ "," +:+ b) = parse_gpus h a /\
  parse_gpus h (b +:+ "," +:+ c) = parse_gpus h c.
Proof.
  intros Hb Hs.
  assert (Hpb : parse_gpus h b = Ret []).
  { unfold parse_gpus. rewrite (split_on_no_sep "," b Hb). simpl.
    now rewrite Hs. }
  rewrite !parse_gpus_comma, Hpb. simpl. split; [|split].
  - destruct (parse_gpus h a) as [za|]; [|reflexivity]. simpl.
    now destruct (parse_gpus h c).
  - destruct (parse_gpus h a) as [za|]; [|reflexivity].
    simpl. now rewrite app_nil_r.
  - now destruct (parse_gpus h c).
Qed.

Lemma blank_field_skipped_witness :
  parse_gpus demo_host ("0,1" +:+ "," +:+ "  " +:+ "," +:+ "2")
  = parse_gpus demo_host ("0,1" +:+ "," +:+ "2") /\
  parse_gpus demo_host ("0,1" +:+ "," +:+ "  ") = parse_gpus demo_host "0,1" /\
  parse_gpus demo_host ("  " +:+ "," +:+ "2") = parse_gpus demo_host "2".
Proof.
  apply (blank_field_skipped demo_host "0,1" "  " "2").
  - intros H. apply str_in_iff in H. vm_compute in H. discriminate.
  - reflexivity.
Defined.

(** ** The seeds and the tasks, lines 138-169 *)

Lemma filter_sublist {A : Type} (f : A -> bool) (l : list A) :
  List.filter f l `sublist_of` l.
Proof.
  induction l as [|x l IH]; simpl; [constructor|].
  destruct (f x); now constructor.
Qed.

Lemma elem_of_filter_bool {A : Type} (f : A -> bool) (l : list A) (x : A) :
  x ∈ List.filter f l <-> x ∈ l /\ f x = true.
Proof. now rewrite !list_elem_of_In, filter_In. Qed.

Lemma included_iff (h : host) (names : list string) (d : string) :
  included h names d = true <-> path_name h d ∈ names.
Proof.
  unfold included. rewrite existsb_exists, list_elem_of_In. split.
  - intros (n & Hn & E). apply String.eqb_eq in E. now subst.
  - intros H. exists (path_name h d). split; [exact H|apply String.eqb_refl].
Qed.

(** X17. The seeds of a run are the directories among the sorted entries of the
    seeds root, in that order. A list of names after --include keeps the
    directories with one of these names; --include without a name, like
    no --include, keeps them all. *)
Theorem select_seeds_spec (h : host) (seeds_root : string)
    (include : option (list string)) (entries : list string) :
  iterdir_sorted h seeds_root = Ret entries ->
  exists seeds,
    select_seeds h seeds_root include = Ret seeds /\
    seeds `sublist_of` entries /\
    (forall d,
       d ∈ seeds <->
       d ∈ entries /\ is_dir h d = true /\
       match include with
       | Some (n :: names) => path_name h d ∈ n :: names
       | _ => True
       end) /\
    (include = None \/ include = Some [] ->
     seeds = List.filter (is_dir h) entries).
Proof.
  intros Hi. unfold select_seeds. rewrite Hi. simpl.
  destruct include as [[|n names]|]; eexists; (split; [reflexivity|]).
  - split; [apply filter_sublist|]. split; [|reflexivity].
    intros d. rewrite elem_of_filter_bool. tauto.
  - split; [|split].
    + etransitivity; apply filter_sublist.
    + intros d. rewrite !elem_of_filter_bool, included_iff. tauto.
    + intros [H|H]; discriminate.
  - split; [apply filter_sublist|]. split; [|reflexivity].
    intros d. rewrite elem_of_filter_bool. tauto.
Qed.

Lemma select_seeds_spec_witness :
  exists seeds,
    select_seeds demo_host "/data/seeds" (Some ["E"; "A"; "Z"]) = Ret seeds /\
    seeds `sublist_of`
      ["/data/seeds/A"; "/data/seeds/B"; "/data/seeds/E";
       "/data/seeds/README"] /\
    seeds = ["/data/seeds/A"; "/data/seeds/E"].
Proof.
  destruct (select_seeds_spec demo_host "/data/seeds" (Some ["E"; "A"; "Z"])
              ["/data/seeds/A"; "/data/seeds/B"; "/data/seeds/E";
               "/data/seeds/README"] eq_refl) as (seeds & H1 & H2 & _).
  exists seeds. split; [exact H1|]. split; [exact H2|].
  vm_compute in H1. now inversion H1.
Defined.

Lemma build_cmd_fields (py script fasta_dir mmcif_dir out_dir aln_dir
    config_preset : string) (skip_relax : bool) :
  let cmd := build_cmd py script fasta_dir mmcif_dir out_dir aln_dir
               config_preset skip_relax in
  cmd !! 0%nat = Some py /\ cmd !! 1%nat = Some script /\
  cmd !! 5%nat = Some out_dir /\ cmd !! 7%nat = Some aln_dir.
Proof. now destruct skip_relax. Qed.

(** X18. The tasks are built from the seeds one for one and in order, unless a
    [mkdir] of an output directory raises: each task has the name of its
    seed directory, the interpreter and the script as the first two words
    of its command, its own output directory and its seed directory as
    alignment directory, the placeholder -1 as GPU, and a log path exactly
    when --log_dir was given. *)
Theorem make_tasks_spec (h : host) (a : args)
    (output_root fasta_dir mmcif_dir script : string) (seeds : list string) :
  ((exists tasks,
      make_tasks h a output_root fasta_dir mmcif_dir script seeds
      = Ret tasks) <->
   forall seed, seed ∈ seeds ->
     mkdir h (path_join h output_root (path_name h seed)) = None) /\
  forall tasks,
    make_tasks h a output_root fasta_dir mmcif_dir script seeds = Ret tasks ->
    map task_name tasks = map (path_name h) seeds /\
    Forall (fun t =>
              task_cmd t !! 0%nat = Some (executable h) /\
              task_cmd t !! 1%nat = Some script /\
              task_gpu t = -1 /\
              (task_log t = None <-> arg_log_dir a = None)) tasks /\
    (forall i seed, seeds !! i = Some seed ->
       exists t,
         tasks !! i = Some t /\
         task_name t = path_name h seed /\
         task_cmd t !! 5%nat
         = Some (path_join h output_root (path_name h seed)) /\
         task_cmd t !! 7%nat = Some seed).
Proof.
  induction seeds as [|seed seeds [IH1 IH2]].
  - split.
    + split; [intros _ seed H; now apply elem_of_nil in H|].
      intros _. now exists [].
    + intros tasks H. simpl in H. inversion H; subst. split; [reflexivity|].
      split; [constructor|]. intros i seed Hi. destruct i; discriminate.
  - simpl. split.
    + split.
      * intros (tasks & H) d Hd.
        destruct (mkdir h (path_join h output_root (path_name h seed)))
          eqn:Em; [discriminate|].
        apply elem_of_cons in Hd as [->|Hd]; [exact Em|].
        apply IH1; [|exact Hd].
        destruct (make_tasks h a output_root fasta_dir mmcif_dir script seeds)
          as [tasks'|]; [now exists tasks'|discriminate].
      * intros H. rewrite (H seed) by apply list_elem_of_here.
        destruct (proj2 IH1) as [tasks' ->];
          [intros d Hd; apply H; now apply list_elem_of_further|].
        simpl. now eexists.
    + intros tasks H.
      destruct (mkdir h (path_join h output_root (path_name h seed)))
        eqn:Em; [discriminate|].
      destruct (make_tasks h a output_root fasta_dir mmcif_dir script seeds)
        as [tasks'|] eqn:E; [|discriminate].
      simpl in H. inversion H; subst tasks. clear H.
      destruct (IH2 tasks' eq_refl) as (N & F & L).
      pose proof (build_cmd_fields (executable h) script fasta_dir mmcif_dir
                    (path_join h output_root (path_name h seed)) seed
                    (arg_config_preset a) (arg_skip_relaxation a))
        as (B0 & B1 & B5 & B7).
      split; [simpl; now rewrite N|]. split.
      * constructor; [|exact F]. simpl. split; [exact B0|].
        split; [exact B1|]. split; [reflexivity|].
        destruct (arg_log_dir a); split; congruence.
      * intros i d Hi. destruct i as [|i]; simpl in Hi.
        -- inversion Hi; subst d. eexists. split; [reflexivity|]. simpl.
           now repeat split.
        -- exact (L i d Hi).
Qed.

Lemma make_tasks_spec_witness :
  map task_name
    [Task (build_cmd "/usr/bin/python3" demo_script "/data/fasta"
             "/data/mmcif" "/out/A" "/data/seeds/A" "model_3_ptm" false)
       (-1) "A" (Some "/logs/A.log")]
  = map (path_name demo_host) ["/data/seeds/A"].
Proof.
  refine (proj1 (proj2 (make_tasks_spec demo_host
                          (Args "/data/seeds" "/out" "/data/fasta"
                             "/data/mmcif" demo_script "model_3_ptm" false
                             "0" None false (Some "/logs") 1)
                          "/out" "/data/fasta" "/data/mmcif" demo_script
                          ["/data/seeds/A"]) _ _)).
  vm_compute. reflexivity.
Defined.

(** ** main, lines 119-194 *)

Lemma make_tasks_raise (h : host) (a : args)
    (output_root fasta_dir mmcif_dir script : string) (seeds : list string)
    (e : exn) :
  make_tasks h a output_root fasta_dir mmcif_dir script seeds = Raise e ->
  exists d, mkdir h d = Some e.
Proof.
  induction seeds as [|seed seeds IH]; simpl; [discriminate|].
  destruct (mkdir h (path_join h output_root (path_name h seed))) eqn:Em.
  - intros H. inversion H; subst. eauto.
  - destruct (make_tasks h a output_root fasta_dir mmcif_dir script seeds);
      [discriminate|].
    simpl. intros H. inversion H; subst. now apply IH.
Qed.

Lemma make_tasks_has_script (h : host) (a : args)
    (output_root fasta_dir mmcif_dir script : string) (seeds : list string)
    (tasks : list task) :
  make_tasks h a output_root fasta_dir mmcif_dir script seeds = Ret tasks ->
  Forall (fun t => task_cmd t !! 1%nat = Some script) tasks /\
  map task_name tasks = map (path_name h) seeds.
Proof.
  revert tasks. induction seeds as [|seed seeds IH]; intros tasks H;
    simpl in H.
  - inversion H; subst. split; [constructor|reflexivity].
  - destruct (mkdir h (path_join h output_root (path_name h seed)));
      [discriminate|].
    destruct (make_tasks h a output_root fasta_dir mmcif_dir script seeds)
      as [tasks'|]; [|discriminate].
    simpl in H. inversion H; subst. destruct (IH tasks' eq_refl) as [F N].
    split; [|simpl; now rewrite N].
    constructor; [|exact F]. simpl. apply build_cmd_fields.
Qed.

Lemma truthy_true {A : Type} (l : list A) : truthy l = true <-> l <> [].
Proof. destruct l; simpl; split; congruence. Qed.

(** The two ways in which [main] ends: after its checks, with a dry run or
    with the rounds; or before, with no line but the plan on the console. *)
Lemma main_cases (h : host) (W : Z -> nat -> os_world)
    (schedules : Z -> list nat) (fuel : nat) (a : args)
    (out : list main_line) (e : main_end) :
  main h W schedules fuel a = Some (out, e) ->
  (exists gpu_ids seeds tasks,
     prepared h a gpu_ids seeds tasks /\
     ((arg_dry_run a = true /\
       out = InfoLine (length seeds) gpu_ids
             :: map cmd_line tasks ++ [DryRunLine] /\
       e = DryRunEnd) \/
      (arg_dry_run a = false /\
       exists out' r,
         main_rounds (parent h) W schedules fuel tasks gpu_ids
           (resolve h (arg_script a)) (arg_max_retries a) = Some (out', r) /\
         out = InfoLine (length seeds) gpu_ids
               :: map cmd_line tasks ++ map RunLine out' /\
         e = end_of_rounds r))) \/
  ((forall l, l ∈ out -> exists n g, l = InfoLine n g) /\
   ((exists m, e = SysExit m) \/
    (exists x,
       e = Crash x /\
       (parse_gpus h (arg_gpus a) = Raise x \/
        select_seeds h (resolve h (arg_seeds_root a)) (arg_include a)
        = Raise x \/
        exists d, mkdir h d = Some x)))).
Proof.
  unfold main.
  assert (Hnil : forall l : main_line, l ∈ [] -> exists n g, l = InfoLine n g)
    by (intros l Hl; now apply elem_of_nil in Hl).
  destruct (is_dir h (resolve h (arg_seeds_root a))) eqn:C1; simpl.
  2:{ intros H. inversion H; subst. right. split; [exact Hnil|]. left. eauto. }
  destruct (is_dir h (resolve h (arg_fasta_dir a))) eqn:C2; simpl.
  2:{ intros H. inversion H; subst. right. split; [exact Hnil|]. left. eauto. }
  destruct (is_dir h (resolve h (arg_mmcif_dir a))) eqn:C3; simpl.
  2:{ intros H. inversion H; subst. right. split; [exact Hnil|]. left. eauto. }
  destruct (is_file h (resolve h (arg_script a))) eqn:C4; simpl.
  2:{ intros H. inversion H; subst. right. split; [exact Hnil|]. left. eauto. }
  destruct (parse_gpus h (arg_gpus a)) as [gpu_ids|x] eqn:Ep.
  2:{ intros H. inversion H; subst. right. split; [exact Hnil|]. right.
      exists x. auto. }
  destruct (truthy gpu_ids) eqn:Tg; simpl.
  2:{ intros H. inversion H; subst. right. split; [exact Hnil|]. left. eauto. }
  destruct (select_seeds h (resolve h (arg_seeds_root a)) (arg_include a))
    as [seeds|x] eqn:Es.
  2:{ intros H. inversion H; subst. right. split; [exact Hnil|]. right.
      exists x. auto. }
  destruct (truthy seeds) eqn:Ts; simpl.
  2:{ intros H. inversion H; subst. right. split; [exact Hnil|]. left. eauto. }
  destruct (make_log_dir h (arg_log_dir a)) as [x|] eqn:El.
  { intros H. inversion H; subst. right. split; [exact Hnil|]. right.
    exists x. split; [reflexivity|]. right. right.
    unfold make_log_dir in El. destruct (arg_log_dir a) as [d|];
      [|discriminate].
    destruct (String.eqb d ""); [discriminate|]. eauto. }
  destruct (make_tasks h a (resolve h (arg_output_root a))
              (resolve h (arg_fasta_dir a)) (resolve h (arg_mmcif_dir a))
              (resolve h (arg_script a)) seeds) as [tasks|x] eqn:Et.
  2:{ intros H. inversion H; subst. right. split.
      - intros l Hl. apply list_elem_of_singleton in Hl. eauto.
      - right. exists x. split; [reflexivity|]. right. right.
        eapply make_tasks_raise, Et. }
  assert (Hp : prepared h a gpu_ids seeds tasks).
  { unfold prepared. rewrite C1, C2, C3, C4, Ep, Es, El, Et.
    apply truthy_true in Tg, Ts. now repeat split. }
  intros H. left. exists gpu_ids, seeds, tasks. split; [exact Hp|].
  destruct (arg_dry_run a).
  - left. inversion H; subst. now repeat split.
  - right. split; [reflexivity|].
    destruct (main_rounds (parent h) W schedules fuel tasks gpu_ids
                (resolve h (arg_script a)) (arg_max_retries a))
      as [[out' r]|] eqn:Er; [|discriminate].
    exists out', r. split; [reflexivity|].
    destruct r as [[[ok fail] attempts]|x]; inversion H; subst; now split.
Qed.

Lemma prepared_unique (h : host) (a : args) (g1 g2 : list Z)
    (s1 s2 : list string) (t1 t2 : list task) :
  prepared h a g1 s1 t1 -> prepared h a g2 s2 t2 ->
  g1 = g2 /\ s1 = s2 /\ t1 = t2.
Proof.
  intros (_ & _ & _ & _ & P1 & _ & S1 & _ & _ & T1)
         (_ & _ & _ & _ & P2 & _ & S2 & _ & _ & T2).
  rewrite P1 in P2. inversion P2; subst g2.
  rewrite S1 in S2. inversion S2; subst s2.
  rewrite T1 in T2. now inversion T2.
Qed.

(** X20. A command is shown and a job is run only after every check: when the
    console of [main] has a command line or a line of the rounds, or
    [main] ends as a dry run or at its last line, then the four paths
    exist, the GPU list has an id, there is a seed, and every directory
    could be made. *)
Theorem main_runs_only_prepared (h : host) (W : Z -> nat -> os_world)
    (schedules : Z -> list nat) (fuel : nat) (a : args)
    (out : list main_line) (e : main_end) :
  main h W schedules fuel a = Some (out, e) ->
  e = DryRunEnd \/ (exists ok fail attempts, e = Finished ok fail attempts) \/
  (exists l, RunLine l ∈ out) \/ (exists n c, CmdLine n c ∈ out) ->
  exists gpu_ids seeds tasks, prepared h a gpu_ids seeds tasks.
Proof.
  intros H Hc. apply main_cases in H as [(g & s & t & Hp & _)|[Hout He]].
  { now exists g, s, t. }
  exfalso. destruct Hc as [->|[(ok & fail & at' & ->)|[(l & Hl)|(n & c & Hl)]]].
  - destruct He as [(m & Hm)|(x & Hx & _)]; discriminate.
  - destruct He as [(m & Hm)|(x & Hx & _)]; discriminate.
  - destruct (Hout _ Hl) as (n & g & Hn). discriminate.
  - destruct (Hout _ Hl) as (n' & g & Hn). discriminate.
Qed.

Lemma main_runs_only_prepared_witness :
  exists gpu_ids seeds tasks, prepared demo_host demo_args gpu_ids seeds tasks.
Proof.
  refine (main_runs_only_prepared demo_host (fun _ _ => main_world)
            (fun _ => []) 2 demo_args _
            (Finished ["A"; "E"]
               [Task (build_cmd "/usr/bin/python3" demo_script "/data/fasta"
                        "/data/mmcif" "/out/B" "/data/seeds/B" "model_3_ptm"
                        false) 0 "B" None] 1) _ _).
  - vm_compute. reflexivity.
  - right. left. eauto.
Defined.

Lemma main_returns (h : host) (W : Z -> nat -> os_world)
    (schedules : Z -> list nat) (fuel : nat) (a : args) :
  arg_dry_run a = true \/ (Z.to_nat (arg_max_retries a) < fuel)%nat ->
  exists out e, main h W schedules fuel a = Some (out, e).
Proof.
  intros Hd. unfold main.
  destruct (is_dir h (resolve h (arg_seeds_root a))); simpl; [|now eauto].
  destruct (is_dir h (resolve h (arg_fasta_dir a))); simpl; [|now eauto].
  destruct (is_dir h (resolve h (arg_mmcif_dir a))); simpl; [|now eauto].
  destruct (is_file h (resolve h (arg_script a))); simpl; [|now eauto].
  destruct (parse_gpus h (arg_gpus a)) as [gpu_ids|x]; [|now eauto].
  destruct (truthy gpu_ids); simpl; [|now eauto].
  destruct (select_seeds h (resolve h (arg_seeds_root a)) (arg_include a))
    as [seeds|x]; [|now eauto].
  destruct (truthy seeds); simpl; [|now eauto].
  destruct (make_log_dir h (arg_log_dir a)); [now eauto|].
  destruct (make_tasks h a (resolve h (arg_output_root a))
              (resolve h (arg_fasta_dir a)) (resolve h (arg_mmcif_dir a))
              (resolve h (arg_script a)) seeds) as [tasks|x]; [|now eauto].
  destruct (arg_dry_run a); [now eauto|].
  destruct Hd as [Hd|Hf]; [discriminate|].
  destruct (rounds_return (parent h) W schedules gpu_ids
              (resolve h (arg_script a)) (arg_max_retries a) fuel tasks Hf)
    as (out' & r & ->).
  destruct r as [[[ok fail] attempts]|x]; now eauto.
Qed.

Lemma main_prepared (h : host) (W : Z -> nat -> os_world)
    (schedules : Z -> list nat) (fuel : nat) (a : args) (gpu_ids : list Z)
    (seeds : list string) (tasks : list task) :
  prepared h a gpu_ids seeds tasks ->
  main h W schedules fuel a
  = if arg_dry_run a then
      Some (InfoLine (length seeds) gpu_ids
            :: map cmd_line tasks ++ [DryRunLine], DryRunEnd)
    else
      match
        main_rounds (parent h) W schedules fuel tasks gpu_ids
          (resolve h (arg_script a)) (arg_max_retries a)
      with
      | None => None
      | Some (out, r) =>
          Some (InfoLine (length seeds) gpu_ids
                :: map cmd_line tasks ++ map RunLine out, end_of_rounds r)
      end.
Proof.
  intros (C1 & C2 & C3 & C4 & Ep & Hg & Es & Hs & El & Et).
  unfold main. rewrite C1, C2, C3, C4, Ep. simpl.
  apply truthy_true in Hg, Hs. rewrite Hg, Es. simpl. rewrite Hs, El, Et.
  simpl. destruct (arg_dry_run a); [reflexivity|].
  destruct (main_rounds (parent h) W schedules fuel tasks gpu_ids
              (resolve h (arg_script a)) (arg_max_retries a))
    as [[out [[[ok fail] attempts]|x]]|]; reflexivity.
Qed.

(** X21. A dry run starts no job: [main] ends whatever the fuel, its console
    and its end are the same in every world and under every completion
    order, no line of the rounds is on the console, and it does not reach
    its last line. When the checks pass, the console is the plan, one
    command line for each seed, and the dry-run line. *)
Theorem dry_run_runs_nothing (h : host) (W : Z -> nat -> os_world)
    (schedules : Z -> list nat) (fuel : nat) (a : args) :
  arg_dry_run a = true ->
  (forall W' schedules' fuel',
     main h W' schedules' fuel' a = main h W schedules fuel a) /\
  exists out e,
    main h W schedules fuel a = Some (out, e) /\
    (forall l, RunLine l ∉ out) /\
    (forall ok fail attempts, e <> Finished ok fail attempts) /\
    (forall gpu_ids seeds tasks,
       prepared h a gpu_ids seeds tasks ->
       out = InfoLine (length seeds) gpu_ids
             :: map cmd_line tasks ++ [DryRunLine] /\
       e = DryRunEnd /\
       length out = (length seeds + 2)%nat).
Proof.
  intros Hd. split.
  { intros W' schedules' fuel'. destruct a. simpl in Hd. subst.
    reflexivity. }
  destruct (main_returns h W schedules fuel a (or_introl Hd)) as (out & e & H).
  exists out, e. split; [exact H|].
  assert (Hlast : forall gpu_ids seeds tasks,
            prepared h a gpu_ids seeds tasks ->
            out = InfoLine (length seeds) gpu_ids
                  :: map cmd_line tasks ++ [DryRunLine] /\
            e = DryRunEnd /\
            length out = (length seeds + 2)%nat).
  { intros g s t Hp. rewrite (main_prepared _ _ _ _ _ _ _ _ Hp), Hd in H.
    inversion H; subst out e. split; [reflexivity|]. split; [reflexivity|].
    simpl. rewrite length_app, length_map. simpl.
    destruct Hp as (_ & _ & _ & _ & _ & _ & _ & _ & _ & Ht).
    apply make_tasks_has_script in Ht as [_ Hn].
    apply (f_equal (@length _)) in Hn. rewrite !length_map in Hn. lia. }
  split; [|split; [|exact Hlast]].
  - apply main_cases in H as [(g & s & t & Hp & _)|[Hout _]].
    + destruct (Hlast g s t Hp) as (-> & _ & _).
      intros l Hl. apply elem_of_cons in Hl as [Hl|Hl]; [discriminate|].
      apply elem_of_app in Hl as [Hl|Hl].
      * apply list_elem_of_In, in_map_iff in Hl as (x & Hx & _). discriminate.
      * apply list_elem_of_singleton in Hl. discriminate.
    + intros l Hl. destruct (Hout _ Hl) as (n & g & Hn). discriminate.
  - apply main_cases in H as [(g & s & t & Hp & _)|[_ He]].
    + destruct (Hlast g s t Hp) as (_ & -> & _). discriminate.
    + intros ok fail attempts ->.
      destruct He as [(m & Hm)|(x & Hx & _)]; discriminate.
Qed.

Lemma dry_run_runs_nothing_witness :
  main demo_host (fun _ _ => demo_world) (fun _ => [1%nat]) 5
    (Args "/data/seeds" "/out" "/data/fasta" "/data/mmcif" demo_script
       "model_3_ptm" true "3" (Some ["B"; "Z"]) true (Some "/logs") 1)
  = Some ([InfoLine 1 [3];
           cmd_line
             (Task (build_cmd "/usr/bin/python3" demo_script "/data/fasta"
                      "/data/mmcif" "/out/B" "/data/seeds/B" "model_3_ptm"
                      true) (-1) "B" (Some "/logs/B.log"));
           DryRunLine], DryRunEnd).
Proof.
  rewrite (proj1 (dry_run_runs_nothing demo_host (fun _ _ => main_world)
                    (fun _ => []) 0
                    (Args "/data/seeds" "/out" "/data/fasta" "/data/mmcif"
                       demo_script "model_3_ptm" true "3" (Some ["B"; "Z"])
                       true (Some "/logs") 1) eq_refl)
             (fun _ _ => demo_world) (fun _ => [1%nat]) 5%nat).
  vm_compute. reflexivity.
Defined.

(** X22. With fuel above the retry budget [main] ends. When it reaches its last
    line, the checks have passed, every seed is in exactly one of the two
    final lists, succeeded or still failing, and the number of retries is
    within the budget. *)
Theorem main_terminates (h : host) (W : Z -> nat -> os_world)
    (schedules : Z -> list nat) (fuel : nat) (a : args) :
  (Z.to_nat (arg_max_retries a) < fuel)%nat ->
  exists out e,
    main h W schedules fuel a = Some (out, e) /\
    forall ok fail attempts,
      e = Finished ok fail attempts ->
      exists gpu_ids seeds tasks,
        prepared h a gpu_ids seeds tasks /\
        arg_dry_run a = false /\
        ok ++ map task_name fail ≡ₚ map (path_name h) seeds /\
        (length ok + length fail = length seeds)%nat /\
        0 <= attempts <= Z.max 0 (arg_max_retries a).
Proof.
  intros Hf.
  destruct (main_returns h W schedules fuel a (or_intror Hf)) as (out & e & H).
  exists out, e. split; [exact H|]. intros ok fail attempts ->.
  apply main_cases in H as [(g & s & t & Hp & Hc)|[_ He]].
  2:{ destruct He as [(m & Hm)|(x & Hx & _)]; discriminate. }
  destruct Hc as [(_ & _ & Hc)|(Hd & out' & r & Hr & _ & He)]; [discriminate|].
  exists g, s, t. split; [exact Hp|]. split; [exact Hd|].
  destruct r as [[[ok' fail'] a']|x]; [|discriminate].
  simpl in He. inversion He; subst ok' fail' a'.
  apply rounds_final in Hr as [Hperm Ha].
  destruct Hp as (_ & _ & _ & _ & _ & _ & _ & _ & _ & Ht).
  apply make_tasks_has_script in Ht as [_ Hn]. rewrite Hn in Hperm.
  split; [exact Hperm|]. split; [|exact Ha].
  apply Permutation_length in Hperm.
  now rewrite length_app, !length_map in Hperm.
Qed.

Lemma main_terminates_witness :
  exists out e,
    main demo_host (fun _ _ => main_world) (fun _ => []) 2 demo_args
    = Some (out, e) /\
    e = Finished ["A"; "E"]
          [Task (build_cmd "/usr/bin/python3" demo_script "/data/fasta"
                   "/data/mmcif" "/out/B" "/data/seeds/B" "model_3_ptm"
                   false) 0 "B" None] 1.
Proof.
  destruct (main_terminates demo_host (fun _ _ => main_world) (fun _ => [])
              2 demo_args) as (out & e & H & _).
  - simpl. lia.
  - exists out, e. split; [exact H|].
    vm_compute in H. now inversion H.
Defined.



Lemma map_sublist {A B : Type} (f : A -> B) (l1 l2 : list A) :
  l1 `sublist_of` l2 -> map f l1 `sublist_of` map f l2.
Proof. induction 1; simpl; now constructor. Qed.

(** X19. The jobs of a run have pairwise distinct names as soon as the entries
    of the seeds root have: the names are the names of the selected seed
    directories, in the order of the listing. *)
Theorem main_names_distinct (h : host) (a : args) (entries : list string)
    (gpu_ids : list Z) (seeds : list string) (tasks : list task) :
  iterdir_sorted h (resolve h (arg_seeds_root a)) = Ret entries ->
  NoDup (map (path_name h) entries) ->
  prepared h a gpu_ids seeds tasks ->
  map task_name tasks `sublist_of` map (path_name h) entries /\
  NoDup (map task_name tasks).
Proof.
  intros Hi Hn (_ & _ & _ & _ & _ & _ & Hs & _ & _ & Ht).
  apply make_tasks_has_script in Ht as [_ ->].
  assert (Hsub : seeds `sublist_of` entries).
  { unfold select_seeds in Hs. rewrite Hi in Hs. simpl in Hs.
    inversion Hs; subst seeds.
    destruct (arg_include a) as [[|n names]|]; try apply filter_sublist.
    etransitivity; apply filter_sublist. }
  apply (map_sublist (path_name h)) in Hsub.
  split; [exact Hsub|]. eapply sublist_NoDup; [exact Hn|exact Hsub].
Qed.

Lemma main_names_distinct_witness :
  exists tasks,
    map task_name tasks
    `sublist_of` map (path_name demo_host)
                   ["/data/seeds/A"; "/data/seeds/B"; "/data/seeds/E";
                    "/data/seeds/README"] /\
    NoDup (map task_name tasks) /\
    map task_name tasks = ["A"; "B"; "E"].
Proof.
  assert (Hp : exists tasks,
            prepared demo_host demo_args [0; 1]
              ["/data/seeds/A"; "/data/seeds/B"; "/data/seeds/E"] tasks /\
            map task_name tasks = ["A"; "B"; "E"]).
  { exists (match
              make_tasks demo_host demo_args "/out" "/data/fasta"
                "/data/mmcif" demo_script
                ["/data/seeds/A"; "/data/seeds/B"; "/data/seeds/E"]
            with
            | Ret t => t
            | Raise _ => []
            end).
    split; [|vm_compute; reflexivity].
    vm_compute. repeat split; first [reflexivity|discriminate]. }
  destruct Hp as (tasks & Hp & Hn). exists tasks.
  destruct (main_names_distinct demo_host demo_args
              ["/data/seeds/A"; "/data/seeds/B"; "/data/seeds/E";
               "/data/seeds/README"] [0; 1]
              ["/data/seeds/A"; "/data/seeds/B"; "/data/seeds/E"] tasks)
    as [H1 H2].
  - reflexivity.
  - apply (bool_decide_unpack _). vm_compute. exact I.
  - exact Hp.
  - now repeat split.
Defined.

Lemma run_tasks_returns_iff_witness :
  exists out ok fail,
    run_tasks demo_parent (fun _ => demo_world) [2%nat] demo_tasks [0; 1]
      demo_script = (out, Ret (ok, fail)).
Proof.
  apply (proj2 (run_tasks_returns_iff demo_parent (fun _ => demo_world)
                  [2%nat] demo_tasks [0; 1] demo_script)).
  split; [discriminate|]. split; [exact demo_has_script|].
  intros [|[|[|[|i]]]] t g sp Ht Hg Hs; simpl in Ht, Hg;
    inversion Ht; subst t; inversion Hg; subst g; eexists; reflexivity.
Defined.
